(** * ipynb_to_py: notebook-to-script conversion, pruning and formatting

    Shallow embedding of [src/ipynb_to_py.py].  Python strings are modelled
    as [string] (a character is read as a code point below 256), Python
    sets of identifiers as [gset string], the file system as a
    [gmap string string] from paths to contents.  The library calls the
    program makes ([ast.parse], [astunparse.unparse], [nbformat.read],
    [tempfile], [subprocess.run]) are fields of a [Runtime] record. *)

From Stdlib Require Import String Ascii List Bool Arith Lia DecimalString.
From stdpp Require Import gmap strings list.
Import ListNotations.
Local Open Scope string_scope.
Local Open Scope list_scope.
Set Warnings "-register-all,-clear-no-such-hyp".

(** ** Python string primitives used by the program *)

Module PyStr.

Definition LF : ascii := ascii_of_nat 10.
Definition CR : ascii := ascii_of_nat 13.

(** Line boundaries of [str.splitlines] among the code points below 256:
    LF, VT, FF, CR, FS, GS, RS and NEL. *)
Definition is_linebreak (c : ascii) : bool :=
  let n := nat_of_ascii c in
  Nat.eqb n 10 || Nat.eqb n 11 || Nat.eqb n 12 || Nat.eqb n 13
  || Nat.eqb n 28 || Nat.eqb n 29 || Nat.eqb n 30 || Nat.eqb n 133.

(** Characters removed by [str.strip()] (those with [str.isspace]) among
    the code points below 256. *)
Definition is_space (c : ascii) : bool :=
  let n := nat_of_ascii c in
  (Nat.leb 9 n && Nat.leb n 13) || (Nat.leb 28 n && Nat.leb n 32)
  || Nat.eqb n 133 || Nat.eqb n 160.

Definition snoc (s : string) (c : ascii) : string :=
  s +:+ String c EmptyString.

(** [splitlines_from cur s]: [cur] is the line being read. A boundary
    closes the current line, CR LF counts as one boundary, and a last
    line is produced only when it is not empty. *)
Fixpoint splitlines_from (cur : string) (s : string) : list string :=
  match s with
  | EmptyString => match cur with EmptyString => [] | _ => [cur] end
  | String c s' =>
      if Ascii.eqb c CR then
        match s' with
        | String d s'' =>
            if Ascii.eqb d LF then cur :: splitlines_from EmptyString s''
            else cur :: splitlines_from EmptyString s'
        | EmptyString => cur :: splitlines_from EmptyString s'
        end
      else if is_linebreak c then cur :: splitlines_from EmptyString s'
      else splitlines_from (snoc cur c) s'
  end.

Definition splitlines (s : string) : list string :=
  splitlines_from EmptyString s.

(** [sep.join(parts)] *)
Fixpoint join (sep : string) (parts : list string) : string :=
  match parts with
  | [] => EmptyString
  | [p] => p
  | p :: rest => p +:+ sep +:+ join sep rest
  end.

Definition startswith (s p : string) : bool := String.prefix p s.

(** [not s.strip()]: nothing is left once the white space is stripped. *)
Fixpoint strip_is_empty (s : string) : bool :=
  match s with
  | EmptyString => true
  | String c s' => is_space c && strip_is_empty s'
  end.

(** [str(n)] for a natural number, as an f-string renders it. *)
Definition str_of_nat (n : nat) : string :=
  NilEmpty.string_of_uint (Nat.to_uint n).

Definition NL : string := String LF EmptyString.

End PyStr.

(** ** Syntax trees, as [ast.parse] builds them

    The constructors the pruning pass tests with [isinstance] are kept
    apart; every other node kind is [OtherExpr] or [OtherStmt], which
    carries its kind and its children ([ast.iter_child_nodes]). An
    expression never contains a statement. *)

Inductive expr_context : Type := Load | Store | Del.

Inductive expr : Type :=
| Name (id : string) (ctx : expr_context)
| Constant (value : string)
| Tuple (elts : list expr) (ctx : expr_context)
| Attribute (value : expr) (attr : string) (ctx : expr_context)
| Call (func : expr) (args : list expr)
| OtherExpr (kind : string) (children : list expr).

Record arg : Type := mk_arg {
  arg_arg : string;
  arg_annotation : option expr
}.

Record arguments : Type := mk_arguments {
  posonlyargs : list arg;
  args_args : list arg;
  vararg : option arg;
  kwonlyargs : list arg;
  kw_defaults : list (option expr);
  kwarg : option arg;
  defaults : list expr
}.

Inductive stmt : Type :=
| Assign (targets : list expr) (value : expr) (type_comment : option string)
| For (target iter : expr) (body orelse : list stmt)
| FunctionDef (name : string) (args : arguments) (body : list stmt)
    (decorator_list : list expr) (returns : option expr)
| ClassDef (name : string) (bases : list expr) (body : list stmt)
    (decorator_list : list expr)
| If (test : expr) (body orelse : list stmt)
| While (test : expr) (body orelse : list stmt)
| Expr (value : expr)
| OtherStmt (kind : string) (exprs : list expr) (blocks : list stmt).

(** [ast.Module]; the name is taken in Rocq. *)
Record ast_Module : Type := mk_Module { mod_body : list stmt }.

(** What [ast.walk] yields. *)
Inductive node : Type :=
| NModule (m : ast_Module)
| NStmt (s : stmt)
| NExpr (e : expr)
| NArguments (a : arguments)
| NArg (a : arg)
| NContext (c : expr_context).

Definition opt_list {A : Type} (o : option A) : list A :=
  match o with Some a => [a] | None => [] end.

(** [ast.walk] yields the node and all its descendants, each once. The
    two collecting loops only add to sets, so the order of the visit
    (breadth first in the library) does not matter here. *)
Fixpoint walk_expr (e : expr) : list node :=
  NExpr e ::
  match e with
  | Name _ c => [NContext c]
  | Constant _ => []
  | Tuple elts c => flat_map walk_expr elts ++ [NContext c]
  | Attribute v _ c => walk_expr v ++ [NContext c]
  | Call f a => walk_expr f ++ flat_map walk_expr a
  | OtherExpr _ ch => flat_map walk_expr ch
  end.

Definition walk_arg (a : arg) : list node :=
  NArg a :: flat_map walk_expr (opt_list (arg_annotation a)).

Definition walk_arguments (a : arguments) : list node :=
  NArguments a ::
  flat_map walk_arg (posonlyargs a) ++ flat_map walk_arg (args_args a)
  ++ flat_map walk_arg (opt_list (vararg a))
  ++ flat_map walk_arg (kwonlyargs a)
  ++ flat_map (fun d => flat_map walk_expr (opt_list d)) (kw_defaults a)
  ++ flat_map walk_arg (opt_list (kwarg a))
  ++ flat_map walk_expr (defaults a).

Fixpoint walk_stmt (s : stmt) : list node :=
  NStmt s ::
  match s with
  | Assign ts v _ => flat_map walk_expr ts ++ walk_expr v
  | For t it b oe =>
      walk_expr t ++ walk_expr it ++ flat_map walk_stmt b
      ++ flat_map walk_stmt oe
  | FunctionDef _ a b ds r =>
      walk_arguments a ++ flat_map walk_stmt b ++ flat_map walk_expr ds
      ++ flat_map walk_expr (opt_list r)
  | ClassDef _ bs b ds =>
      flat_map walk_expr bs ++ flat_map walk_stmt b
      ++ flat_map walk_expr ds
  | If t b oe | While t b oe =>
      walk_expr t ++ flat_map walk_stmt b ++ flat_map walk_stmt oe
  | Expr v => walk_expr v
  | OtherStmt _ es bl => flat_map walk_expr es ++ flat_map walk_stmt bl
  end.

Definition walk (tree : ast_Module) : list node :=
  NModule tree :: flat_map walk_stmt (mod_body tree).

(** ** The pruning pass on a parsed tree (lines 75 to 121) *)

(** First loop: [used_vars]. *)
Definition used_step (used_vars : gset string) (n : node) : gset string :=
  match n with
  | NExpr (Name id Load) => used_vars ∪ {[ id ]}
  | _ => used_vars
  end.

Definition used_vars (tree : ast_Module) : gset string :=
  fold_left used_step (walk tree) ∅.

(** Second loop: [defined_vars]. *)
Definition add_target (defined_vars : gset string) (target : expr)
  : gset string :=
  match target with
  | Name id _ => defined_vars ∪ {[ id ]}
  | _ => defined_vars
  end.

Definition add_arg (defined_vars : gset string) (a : arg) : gset string :=
  defined_vars ∪ {[ arg_arg a ]}.

Definition defined_step (defined_vars : gset string) (n : node)
  : gset string :=
  match n with
  | NStmt (Assign ts _ _) => fold_left add_target ts defined_vars
  | NStmt (For t _ _ _) => add_target defined_vars t
  | NStmt (FunctionDef name a _ _ _) =>
      fold_left add_arg (args_args a) (defined_vars ∪ {[ name ]})
  | NStmt (ClassDef name _ _ _) => defined_vars ∪ {[ name ]}
  | _ => defined_vars
  end.

Definition defined_vars (tree : ast_Module) : gset string :=
  fold_left defined_step (walk tree) ∅.

Definition unused_vars (tree : ast_Module) : gset string :=
  defined_vars tree ∖ used_vars tree.

(** Inner loop of the rebuild: the targets that stay. *)
Definition keep_target (unused : gset string) (targets : list expr)
    (target : expr) : list expr :=
  match target with
  | Name id _ =>
      if decide (id ∉ unused) then targets ++ [target] else targets
  | _ => targets
  end.

(** Outer loop of the rebuild, over [tree.body]. *)
Definition rebuild_step (unused : gset string) (new_body : list stmt)
    (n : stmt) : list stmt :=
  match n with
  | Assign ts v tc =>
      match fold_left (keep_target unused) ts [] with
      | [] => new_body
      | t :: ts' => new_body ++ [Assign (t :: ts') v tc]
      end
  | FunctionDef _ _ _ _ _ => new_body ++ [n]
  | ClassDef _ _ _ _ => new_body ++ [n]
  | _ => new_body ++ [n]
  end.

Definition new_tree (tree : ast_Module) : ast_Module :=
  mk_Module (fold_left (rebuild_step (unused_vars tree)) (mod_body tree) []).

(** ** Exceptions, results and the world the program acts on *)

Inductive exn_class : Type :=
| SyntaxError | IndentationError | TabError
| ValueError
| FileNotFoundError
| CalledProcessError
| OtherException.

(** An instance of (a subclass of) [Exception]; [exn_str] is [str(e)]. *)
Record exn : Type := mk_exn { exn_cls : exn_class; exn_str : string }.

(** [except SyntaxError] also takes its subclasses. *)
Definition isinstance_SyntaxError (e : exn) : bool :=
  match exn_cls e with
  | SyntaxError | IndentationError | TabError => true
  | _ => false
  end.

Definition isinstance_FileNotFoundError (e : exn) : bool :=
  match exn_cls e with FileNotFoundError => true | _ => false end.

Definition isinstance_CalledProcessError (e : exn) : bool :=
  match exn_cls e with CalledProcessError => true | _ => false end.

Inductive result (A : Type) : Type :=
| Return (a : A)
| Raise (e : exn).
Arguments Return {A} a.
Arguments Raise {A} e.

Inductive level : Type := DEBUG | INFO | WARNING | ERROR.

Record world : Type := mk_world {
  files : gmap string string;
  log : list (level * string)
}.

(** Computations: state passing over the world, with exceptions. What
    was written or logged before an exception stays. *)
Definition M (A : Type) : Type := world -> result A * world.

Definition ret {A : Type} (a : A) : M A := fun w => (Return a, w).

Definition raise {A : Type} (e : exn) : M A := fun w => (Raise e, w).

Definition bind {A B : Type} (c : M A) (k : A -> M B) : M B :=
  fun w =>
    match c w with
    | (Return a, w') => k a w'
    | (Raise e, w') => (Raise e, w')
    end.

Definition lift {A : Type} (r : result A) : M A := fun w => (r, w).

(** [try: body except ...]: [handler e] is the first clause that takes
    [e], or [None] when no clause does and [e] goes on. *)
Definition try_except {A : Type} (body : M A) (handler : exn -> option (M A))
  : M A :=
  fun w =>
    match body w with
    | (Return a, w') => (Return a, w')
    | (Raise e, w') =>
        match handler e with
        | Some h => h w'
        | None => (Raise e, w')
        end
    end.

Notation "'let*' x ':=' c 'in' k" := (bind c (fun x => k))
  (at level 10, x pattern, c at level 100, k at level 200).
Notation "c '>>' k" := (bind c (fun _ => k))
  (at level 90, right associativity).

Fixpoint foldM {A B : Type} (f : A -> B -> M A) (a : A) (l : list B) : M A :=
  match l with
  | [] => ret a
  | b :: l' => let* a' := f a b in foldM f a' l'
  end.

Definition logging (lv : level) (msg : string) : M unit :=
  fun w => (Return tt, mk_world (files w) (log w ++ [(lv, msg)])).

(** [open(path, 'r').read()] *)
Definition open_read (path : string) : M string :=
  fun w =>
    match files w !! path with
    | Some content => (Return content, w)
    | None => (Raise (mk_exn FileNotFoundError path), w)
    end.

(** [os.unlink(path)] *)
Definition os_unlink (path : string) : M unit :=
  fun w =>
    match files w !! path with
    | Some _ => (Return tt, mk_world (delete path (files w)) (log w))
    | None => (Raise (mk_exn FileNotFoundError path), w)
    end.

Record cell : Type := mk_cell { cell_type : string; source : string }.

Record notebook : Type := mk_notebook { cells : list cell }.

(** The libraries and the system around the program. *)
Record Runtime : Type := mk_Runtime {
  (** [ast.parse] *)
  ast_parse : string -> result ast_Module;
  (** [astunparse.unparse]: the text, or what the call raises (the
      library raises on a node kind it has no method for) *)
  unparse : ast_Module -> result string;
  (** [nbformat.read(f, as_version=4)], from the text of the file *)
  nbformat_read : string -> result notebook;
  (** opening a path for writing: the exception, if it fails *)
  open_w_error : string -> option exn;
  (** the path [tempfile.NamedTemporaryFile] picks, or its exception *)
  mktemp : gmap string string -> result string;
  (** [subprocess.run(['black', path], check=True, ...)]: the files once
      the tool has run, or what the call raises (then nothing changed) *)
  run_black : string -> gmap string string -> result (gmap string string)
}.

(** ** The program *)

Import PyStr.

(** *** [format_code] (lines 138 to 155) *)

Record fmt_state : Type := mk_fmt {
  formatted_lines : list string;
  changes : list string;
  prev_line_empty : bool
}.

Definition is_def_line (line : string) : bool :=
  startswith line "def " || startswith line "class ".

Definition nonempty {A : Type} (l : list A) : bool :=
  match l with [] => false | _ => true end.

Definition change_msg (i : nat) : string :=
  "Added newline before function/class definition at line "
  +:+ str_of_nat (i + 1).

(** One turn of the loop over [enumerate(lines)]. *)
Definition format_step (st : fmt_state) (il : nat * string) : fmt_state :=
  let '(i, line) := il in
  if is_def_line line then
    let st1 :=
      if negb (prev_line_empty st) && nonempty (formatted_lines st) then
        mk_fmt (formatted_lines st ++ [""]) (changes st ++ [change_msg i])
               (prev_line_empty st)
      else st in
    mk_fmt (formatted_lines st1 ++ [line] ++ [""]) (changes st1) true
  else
    mk_fmt (formatted_lines st ++ [line]) (changes st) (strip_is_empty line).

Definition enumerate {A : Type} (l : list A) : list (nat * A) :=
  combine (seq 0 (length l)) l.

Definition format_lines (lines : list string) : fmt_state :=
  fold_left format_step (enumerate lines) (mk_fmt [] [] true).

Definition format_code (source_code : string) : string * list string :=
  let st := format_lines (splitlines source_code) in
  (join NL (formatted_lines st), changes st).

Section Program.

Variable rt : Runtime.

(** *** [remove_unused_variables] (lines 73 to 126) *)
Definition remove_unused_variables (source_code : string) : M string :=
  try_except
    (let* tree := lift (ast_parse rt source_code) in
     lift (unparse rt (new_tree tree)))
    (fun e =>
       if isinstance_SyntaxError e then
         Some (logging WARNING
                 ("Syntax error, skipping variable removal: " +:+ exn_str e)
               >> ret source_code)
       else None).

(** *** [format_with_black] (lines 167 to 188) *)

(** [with tempfile.NamedTemporaryFile(mode='w', delete=False, ...)]:
    the file is created, written and closed; it stays on disk. *)
Definition write_temp_file (source_code : string) : M string :=
  fun w =>
    match mktemp rt (files w) with
    | Return temp_file_path =>
        (Return temp_file_path,
         mk_world (<[temp_file_path := source_code]> (files w)) (log w))
    | Raise e => (Raise e, w)
    end.

Definition subprocess_run_black (path : string) : M unit :=
  fun w =>
    match run_black rt path (files w) with
    | Return fs => (Return tt, mk_world fs (log w))
    | Raise e => (Raise e, w)
    end.

Definition format_with_black (source_code : string)
  : M (string * list string) :=
  try_except
    (let* temp_file_path := write_temp_file source_code in
     subprocess_run_black temp_file_path >>
     let* formatted_code := open_read temp_file_path in
     os_unlink temp_file_path >>
     ret (formatted_code, ["Formatted using black"]))
    (fun e =>
       if isinstance_FileNotFoundError e then
         Some (logging WARNING "black not found. Using basic formatter."
               >> ret (format_code source_code))
       else if isinstance_CalledProcessError e then
         Some (logging WARNING ("black formatting failed: " +:+ exn_str e)
               >> ret (source_code,
                       ["black formatting failed: " +:+ exn_str e]))
       else
         Some (logging WARNING ("black formatting error: " +:+ exn_str e)
               >> ret (source_code,
                       ["black formatting error: " +:+ exn_str e]))).

(** *** [convert_ipynb_to_py] (lines 23 to 61) *)

(** One turn of the loop over [notebook.cells] (lines 29 to 37). *)
Definition cell_step (remove_unused : bool) (python_code : string)
    (c : cell) : M string :=
  if String.eqb (cell_type c) "code" then
    let* source_code :=
      (if remove_unused then remove_unused_variables (source c)
       else ret (source c)) in
    ret (python_code +:+ (source_code +:+ NL +:+ NL))
  else if String.eqb (cell_type c) "markdown" then
    let markdown_lines := splitlines (source c) in
    let commented_markdown :=
      (NL +:+ "# ") +:+ join (NL +:+ "# ") markdown_lines +:+ (NL +:+ NL) in
    ret (python_code +:+ commented_markdown)
  else ret python_code.

(** The text assembled from the cells (lines 27 to 37). *)
Definition assemble (remove_unused : bool) (nb : notebook) : M string :=
  foldM (cell_step remove_unused) "" (cells nb).

(** [open(py_path, 'w').write(text)] *)
Definition open_write (path text : string) : M unit :=
  fun w =>
    match open_w_error rt path with
    | Some e => (Raise e, w)
    | None => (Return tt, mk_world (<[path := text]> (files w)) (log w))
    end.

Definition log_changes (header : string) (chs : list string) : M unit :=
  if nonempty chs then
    logging INFO header >>
    foldM (fun _ change => logging INFO ("  - " +:+ change)) tt chs
  else ret tt.

Definition convert_ipynb_to_py (ipynb_path py_path : string)
    (remove_unused use_black : bool) : M unit :=
  try_except
    (let* text := open_read ipynb_path in
     let* nb := lift (nbformat_read rt text) in
     let* python_code := assemble remove_unused nb in
     let* fc :=
       (if use_black then
          let* r := format_with_black python_code in
          log_changes
            ("Formatting changes applied to: " +:+ ipynb_path
             +:+ " (using black)") (snd r) >>
          ret r
        else
          let r := format_code python_code in
          log_changes ("Formatting changes applied to: " +:+ ipynb_path)
            (snd r) >>
          ret r) in
     open_write py_path (fst fc) >>
     logging INFO
       ("Successfully converted " +:+ ipynb_path +:+ " to " +:+ py_path))
    (fun e =>
       if isinstance_FileNotFoundError e then
         Some (logging ERROR ("File not found: " +:+ ipynb_path))
       else
         Some (logging ERROR ("An error occurred: " +:+ exn_str e))).

End Program.

(** ** Reference definitions the theorems compare the code with *)

(** The rebuild as a function from a statement to an optional statement:
    only [Name] targets outside [unused] stay. *)
Definition is_kept_target (unused : gset string) (t : expr) : bool :=
  match t with
  | Name id _ => bool_decide (id ∉ unused)
  | _ => false
  end.

Definition rebuild_stmt (unused : gset string) (s : stmt) : option stmt :=
  match s with
  | Assign ts v tc =>
      match List.filter (is_kept_target unused) ts with
      | [] => None
      | ts' => Some (Assign ts' v tc)
      end
  | _ => Some s
  end.

Definition is_Assign (s : stmt) : bool :=
  match s with Assign _ _ _ => true | _ => false end.

Definition is_Name (e : expr) : bool :=
  match e with Name _ _ => true | _ => false end.

(** The names a node adds to [defined_vars]. *)
Definition binds (n : node) (x : string) : Prop :=
  match n with
  | NStmt (Assign ts _ _) => exists c, In (Name x c) ts
  | NStmt (For t _ _ _) => exists c, t = Name x c
  | NStmt (FunctionDef name a _ _ _) =>
      x = name \/ exists p, In p (args_args a) /\ arg_arg p = x
  | NStmt (ClassDef name _ _ _) => x = name
  | _ => False
  end.

(** Descendants, independently of [walk]: the statements directly below
    a statement, the expressions directly below a statement or an
    expression. *)
Definition child_stmts (s : stmt) : list stmt :=
  match s with
  | For _ _ b oe | If _ b oe | While _ b oe => b ++ oe
  | FunctionDef _ _ b _ _ | ClassDef _ _ b _ => b
  | OtherStmt _ _ bl => bl
  | Assign _ _ _ | Expr _ => []
  end.

Definition arg_exprs (a : arg) : list expr := opt_list (arg_annotation a).

Definition arguments_exprs (a : arguments) : list expr :=
  flat_map arg_exprs (posonlyargs a) ++ flat_map arg_exprs (args_args a)
  ++ flat_map arg_exprs (opt_list (vararg a))
  ++ flat_map arg_exprs (kwonlyargs a)
  ++ flat_map opt_list (kw_defaults a)
  ++ flat_map arg_exprs (opt_list (kwarg a))
  ++ defaults a.

Definition stmt_exprs (s : stmt) : list expr :=
  match s with
  | Assign ts v _ => ts ++ [v]
  | For t it _ _ => [t; it]
  | FunctionDef _ a _ ds r => arguments_exprs a ++ ds ++ opt_list r
  | ClassDef _ bs _ ds => bs ++ ds
  | If t _ _ | While t _ _ => [t]
  | Expr v => [v]
  | OtherStmt _ es _ => es
  end.

Definition child_exprs (e : expr) : list expr :=
  match e with
  | Name _ _ | Constant _ => []
  | Tuple elts _ => elts
  | Attribute v _ _ => [v]
  | Call f a => f :: a
  | OtherExpr _ ch => ch
  end.

(** [occurs_in s b]: statement [s] is in block [b] at any depth, also
    inside function and class bodies. *)
Inductive occurs_in (s : stmt) : list stmt -> Prop :=
| occurs_here b : In s b -> occurs_in s b
| occurs_below b s' : In s' b -> occurs_in s (child_stmts s') -> occurs_in s b.

(** [sub_expr e' e]: [e'] is [e] or lies inside it. *)
Inductive sub_expr (e' : expr) : expr -> Prop :=
| sub_refl : sub_expr e' e'
| sub_child e c : In c (child_exprs e) -> sub_expr e' c -> sub_expr e' e.

(** A name collection that stays out of nested scopes, as the data model
    section words it: function and class bodies are not entered. *)
Fixpoint walk_outer_stmt (s : stmt) : list node :=
  NStmt s ::
  match s with
  | Assign ts v _ => flat_map walk_expr ts ++ walk_expr v
  | For t it b oe =>
      walk_expr t ++ walk_expr it ++ flat_map walk_outer_stmt b
      ++ flat_map walk_outer_stmt oe
  | FunctionDef _ a _ ds r =>
      walk_arguments a ++ flat_map walk_expr ds
      ++ flat_map walk_expr (opt_list r)
  | ClassDef _ bs _ ds => flat_map walk_expr bs ++ flat_map walk_expr ds
  | If t b oe | While t b oe =>
      walk_expr t ++ flat_map walk_outer_stmt b
      ++ flat_map walk_outer_stmt oe
  | Expr v => walk_expr v
  | OtherStmt _ es bl =>
      flat_map walk_expr es ++ flat_map walk_outer_stmt bl
  end.

Definition walk_outer (tree : ast_Module) : list node :=
  NModule tree :: flat_map walk_outer_stmt (mod_body tree).

Definition used_vars_outer (tree : ast_Module) : gset string :=
  fold_left used_step (walk_outer tree) ∅.

Definition defined_vars_outer (tree : ast_Module) : gset string :=
  fold_left defined_step (walk_outer tree) ∅.

(** The names that are targets of the top-level assignments. *)
Definition top_level_target (x : string) (tree : ast_Module) : Prop :=
  exists ts v tc c, In (Assign ts v tc) (mod_body tree) /\ In (Name x c) ts.

(** Pruning the text the pruning pass returned. *)
Definition prune_twice (rt : Runtime) (source_code : string) : M string :=
  let* once := remove_unused_variables rt source_code in
  remove_unused_variables rt once.

(** Two texts are the same but for white space. *)
Fixpoint drop_spaces (s : string) : string :=
  match s with
  | EmptyString => EmptyString
  | String c s' =>
      if is_space c then drop_spaces s' else String c (drop_spaces s')
  end.

Definition same_modulo_whitespace (a b : string) : Prop :=
  drop_spaces a = drop_spaces b.

(** The markdown rendering as the testable properties word it: the lines
    of each cell prefixed, each block followed by two newlines. *)
Definition prefixed (lines : list string) : list string :=
  map (fun l => "# " +:+ l) lines.

Fixpoint concat_str (l : list string) : string :=
  match l with
  | [] => EmptyString
  | s :: l' => s +:+ concat_str l'
  end.

Definition spec_markdown_block (c : cell) : string :=
  join NL (prefixed (splitlines (source c))) +:+ NL +:+ NL.

Definition spec_markdown_text (nb : notebook) : string :=
  concat_str (map spec_markdown_block (cells nb)).

(** What the loop produces for a markdown cell: a newline first, and one
    empty comment line when the cell has no line. *)
Definition lines_or_blank (lines : list string) : list string :=
  match lines with [] => [EmptyString] | _ => lines end.

Definition markdown_block (c : cell) : string :=
  NL +:+ join NL (prefixed (lines_or_blank (splitlines (source c))))
  +:+ NL +:+ NL.

Definition is_markdown (c : cell) : Prop := cell_type c = "markdown".

(** The minimal formatter as a function of the lines read so far:
    [prev_empty] says whether the line before is blank (or there is none). *)
Fixpoint fmt_ref (prev_empty : bool) (lines : list string) : list string :=
  match lines with
  | [] => []
  | line :: rest =>
      if is_def_line line then
        (if prev_empty then [] else [""]) ++ [line; ""] ++ fmt_ref true rest
      else line :: fmt_ref (strip_is_empty line) rest
  end.

Fixpoint changes_ref (prev_empty : bool) (i : nat) (lines : list string)
  : list string :=
  match lines with
  | [] => []
  | line :: rest =>
      if is_def_line line then
        (if prev_empty then [] else [change_msg i])
        ++ changes_ref true (S i) rest
      else changes_ref (strip_is_empty line) (S i) rest
  end.

Definition not_empty_line (l : string) : bool :=
  match l with EmptyString => false | _ => true end.

(** The minimal formatter as the component design words it. *)
Definition spec_one_blank_around (out : list string) : Prop :=
  forall k line,
    out !! k = Some line -> is_def_line line = true ->
    (exists k', k = S k' /\ out !! k' = Some "")
    /\ out !! (S k) = Some "" /\ out !! (S (S k)) <> Some "".

Definition spec_inserted_recorded (lines out chs : list string) : Prop :=
  length out = length lines + length chs.

(** ** Sample trees and a sample runtime

    The trees [ast.parse] builds for a few sources, the text
    [astunparse.unparse] renders for them, and runtimes put together from
    these; they serve the examples below. *)

Definition call_print (a : expr) : stmt :=
  Expr (Call (Name "print" Load) [a]).

Definition assign1 (x : string) (v : expr) : stmt :=
  Assign [Name x Store] v None.

Definition src_unused : string := "x = 5" +:+ NL +:+ "print(1)".
Definition tree_unused : ast_Module :=
  mk_Module [assign1 "x" (Constant "5"); call_print (Constant "1")].

Definition src_used : string := "x = 5" +:+ NL +:+ "print(x)".
Definition tree_used : ast_Module :=
  mk_Module [assign1 "x" (Constant "5"); call_print (Name "x" Load)].

Definition src_tuple : string := "a, b = 1, 2" +:+ NL +:+ "print(a)".
Definition tree_tuple : ast_Module :=
  mk_Module
    [Assign [Tuple [Name "a" Store; Name "b" Store] Store]
       (Tuple [Constant "1"; Constant "2"] Load) None;
     call_print (Name "a" Load)].

Definition src_chain : string := "y = 5" +:+ NL +:+ "x = y".
Definition tree_chain : ast_Module :=
  mk_Module [assign1 "y" (Constant "5"); assign1 "x" (Name "y" Load)].

Definition src_y : string := NL +:+ "y = 5" +:+ NL.
Definition tree_y : ast_Module := mk_Module [assign1 "y" (Constant "5")].

Definition src_print1 : string := NL +:+ "print(1)" +:+ NL.
Definition tree_print1 : ast_Module :=
  mk_Module [call_print (Constant "1")].

Definition no_arguments : arguments := mk_arguments [] [] None [] [] None [].

Definition src_nested : string := "def f():" +:+ NL +:+ "    y = x".
Definition tree_nested : ast_Module :=
  mk_Module
    [FunctionDef "f" no_arguments [assign1 "y" (Name "x" Load)] [] None].

Definition src_magic : string := "%matplotlib inline".
Definition src_nul : string := "x = 1" +:+ String (ascii_of_nat 0) "".

Definition err_syntax : exn := mk_exn SyntaxError "invalid syntax".
Definition err_nul : exn :=
  mk_exn ValueError "source code string cannot contain null bytes".

(** A cell that parses and holds a [match] statement. *)
Definition src_match : string :=
  "x = 5" +:+ NL +:+ "match 1:" +:+ NL +:+ "    case _:" +:+ NL
  +:+ "        pass".
Definition tree_match : ast_Module :=
  mk_Module
    [assign1 "x" (Constant "5");
     OtherStmt "Match" [Constant "1"] [OtherStmt "Pass" [] []]].

(** The rendering of [tree_used]. *)
Definition src_used_rendered : string := NL +:+ src_used +:+ NL.

Definition sample_table : list (string * ast_Module) :=
  [(src_unused, tree_unused); (src_used, tree_used); (src_tuple, tree_tuple);
   (src_chain, tree_chain); (src_y, tree_y); (src_print1, tree_print1);
   (src_nested, tree_nested); (NL, mk_Module []);
   (src_used_rendered, tree_used); (src_match, tree_match)].

Fixpoint lookup_source (s : string) (t : list (string * ast_Module))
  : option ast_Module :=
  match t with
  | [] => None
  | (s', m) :: t' => if String.eqb s s' then Some m else lookup_source s t'
  end.

Definition sample_parse (s : string) : result ast_Module :=
  match lookup_source s sample_table with
  | Some m => Return m
  | None => if String.eqb s src_nul then Raise err_nul else Raise err_syntax
  end.

(** Rendering, for the node kinds of the samples. *)
Fixpoint show_expr (e : expr) : string :=
  match e with
  | Name id _ => id
  | Constant v => v
  | Tuple elts _ => "(" +:+ join ", " (map show_expr elts) +:+ ")"
  | Attribute v a _ => show_expr v +:+ "." +:+ a
  | Call f a => show_expr f +:+ "(" +:+ join ", " (map show_expr a) +:+ ")"
  | OtherExpr k ch => k +:+ "(" +:+ join ", " (map show_expr ch) +:+ ")"
  end.

Fixpoint indent (n : nat) : string :=
  match n with O => "" | S n' => "    " +:+ indent n' end.

Fixpoint show_stmt (lv : nat) (s : stmt) : string :=
  let block b := concat_str (map (show_stmt (S lv)) b) in
  let fill := NL +:+ indent lv in
  match s with
  | Assign ts v _ =>
      fill +:+ concat_str (map (fun t => show_expr t +:+ " = ") ts)
      +:+ show_expr v
  | For t it b _ =>
      fill +:+ "for " +:+ show_expr t +:+ " in " +:+ show_expr it +:+ ":"
      +:+ block b
  | FunctionDef name a b _ _ =>
      NL +:+ fill +:+ "def " +:+ name +:+ "("
      +:+ join ", " (map arg_arg (args_args a)) +:+ "):" +:+ block b
  | ClassDef name _ b _ => NL +:+ fill +:+ "class " +:+ name +:+ ":" +:+ block b
  | If t b _ => fill +:+ "if " +:+ show_expr t +:+ ":" +:+ block b
  | While t b _ => fill +:+ "while " +:+ show_expr t +:+ ":" +:+ block b
  | Expr v => fill +:+ show_expr v
  | OtherStmt k es bl =>
      fill +:+ k +:+ " " +:+ join ", " (map show_expr es) +:+ block bl
  end.

(** The statement kinds the renderer has no method for: it raises
    [AttributeError] when it meets one, at any depth. *)
Fixpoint unknown_stmt (s : stmt) : bool :=
  match s with
  | Assign _ _ _ | Expr _ => false
  | For _ _ b oe | If _ b oe | While _ b oe =>
      existsb unknown_stmt b || existsb unknown_stmt oe
  | FunctionDef _ _ b _ _ | ClassDef _ _ b _ => existsb unknown_stmt b
  | OtherStmt k _ bl =>
      String.eqb k "Match" || String.eqb k "TryStar"
      || existsb unknown_stmt bl
  end.

Definition err_unparse : exn :=
  mk_exn OtherException "'Unparser' object has no attribute '_Match'".

Definition sample_unparse (m : ast_Module) : result string :=
  if existsb unknown_stmt (mod_body m) then Raise err_unparse
  else Return (concat_str (map (show_stmt 0) (mod_body m)) +:+ NL).

Definition sample_tmp : string := "/tmp/tmpq3x9.py".

Definition err_no_black : exn :=
  mk_exn FileNotFoundError "[Errno 2] No such file or directory: 'black'".
Definition err_black_failed : exn :=
  mk_exn CalledProcessError
    "Command '['black', '/tmp/tmpq3x9.py']' returned non-zero exit status 123.".
Definition err_black_other : exn :=
  mk_exn OtherException "[Errno 13] Permission denied: 'black'".

Definition sample_notebook : notebook :=
  mk_notebook [mk_cell "markdown" "hello"; mk_cell "code" src_unused].

Definition sample_read (text : string) : result notebook :=
  if String.eqb text "nb" then Return sample_notebook
  else if String.eqb text "nul" then
    Return (mk_notebook [mk_cell "code" src_unused; mk_cell "code" src_nul])
  else if String.eqb text "magic" then
    Return (mk_notebook [mk_cell "code" src_magic; mk_cell "code" src_used])
  else Raise (mk_exn OtherException "Notebook does not appear to be JSON").

(** A runtime whose formatter call ends as [black] says. *)
Definition sample_rt
    (black : string -> gmap string string -> result (gmap string string))
  : Runtime :=
  mk_Runtime sample_parse sample_unparse sample_read (fun _ => None)
    (fun _ => Return sample_tmp) black.

Definition black_missing : string -> gmap string string
                           -> result (gmap string string) :=
  fun _ _ => Raise err_no_black.
Definition black_fails : string -> gmap string string
                         -> result (gmap string string) :=
  fun _ _ => Raise err_black_failed.
Definition black_breaks : string -> gmap string string
                          -> result (gmap string string) :=
  fun _ _ => Raise err_black_other.
(** A formatter that leaves the file as it is. *)
Definition black_ok : string -> gmap string string
                      -> result (gmap string string) :=
  fun _ fs => Return fs.

Definition w0 : world := mk_world ∅ [].
Definition w_nb : world :=
  mk_world (<["nb.ipynb" := "nb"]> (<["nul.ipynb" := "nul"]>
           (<["magic.ipynb" := "magic"]> ∅))) [].

Definition is_read_target (used : gset string) (t : expr) : bool :=
  match t with
  | Name id _ => bool_decide (id ∈ used)
  | _ => false
  end.

(** ** Definitions the statements below use *)

Definition syntax_warning (e : exn) : level * string :=
  (WARNING, "Syntax error, skipping variable removal: " +:+ exn_str e).

Definition add_log (w : world) (lg : list (level * string)) : world :=
  mk_world (files w) (log w ++ lg).

(** A cell is recoverable when it is not a code cell, or parses and
    its pruned tree is rendered, or the one or the other raises a syntax
    error. *)
Definition recoverable (rt : Runtime) (c : cell) : Prop :=
  cell_type c = "code" ->
  match ast_parse rt (source c) with
  | Return tree =>
      match unparse rt (new_tree tree) with
      | Return _ => True
      | Raise e => isinstance_SyntaxError e = true
      end
  | Raise e => isinstance_SyntaxError e = true
  end.

Definition abort_msg (ipynb_path : string) (e : exn) : string :=
  if isinstance_FileNotFoundError e then "File not found: " +:+ ipynb_path
  else "An error occurred: " +:+ exn_str e.

Definition black_handler_result (source_code : string) (e : exn)
  : (string * list string) * (level * string) :=
  if isinstance_FileNotFoundError e then
    (format_code source_code,
     (WARNING, "black not found. Using basic formatter."))
  else if isinstance_CalledProcessError e then
    ((source_code, ["black formatting failed: " +:+ exn_str e]),
     (WARNING, "black formatting failed: " +:+ exn_str e))
  else
    ((source_code, ["black formatting error: " +:+ exn_str e]),
     (WARNING, "black formatting error: " +:+ exn_str e)).

Definition format_stage (rt : Runtime) (use_black : bool)
    (python_code : string) : M (string * list string) :=
  if use_black then format_with_black rt python_code
  else ret (format_code python_code).

Definition success_msg (ipynb_path py_path : string) : level * string :=
  (INFO, "Successfully converted " +:+ ipynb_path +:+ " to " +:+ py_path).

(** In the output every definition line has a blank line (or nothing)
    before it and the empty line after it. *)
Fixpoint well_spaced (prev_blank : bool) (out : list string) : Prop :=
  match out with
  | [] => True
  | l :: out' =>
      (is_def_line l = true -> prev_blank = true /\ head out' = Some "")
      /\ well_spaced (strip_is_empty l) out'
  end.

(** ** Definitions for the further properties *)

(** What a cell adds to the assembled text when the loop does not raise:
    the rendering of the pruned tree of a code cell that parses and is
    rendered, its source otherwise. *)
Definition pruned_text (rt : Runtime) (src : string) : string :=
  match ast_parse rt src with
  | Return tree =>
      match unparse rt (new_tree tree) with
      | Return text => text
      | Raise _ => src
      end
  | Raise _ => src
  end.

Definition cell_text (rt : Runtime) (remove_unused : bool) (c : cell)
  : string :=
  if String.eqb (cell_type c) "code" then
    (if remove_unused then pruned_text rt (source c) else source c)
    +:+ NL +:+ NL
  else if String.eqb (cell_type c) "markdown" then markdown_block c
  else "".

(** The warnings a cell adds to the log when it is pruned. *)
Definition cell_warnings (rt : Runtime) (c : cell) : list (level * string) :=
  if String.eqb (cell_type c) "code" then
    match ast_parse rt (source c) with
    | Return tree =>
        match unparse rt (new_tree tree) with
        | Return _ => []
        | Raise e => [syntax_warning e]
        end
    | Raise e => [syntax_warning e]
    end
  else [].

Definition is_code_or_markdown (c : cell) : bool :=
  String.eqb (cell_type c) "code" || String.eqb (cell_type c) "markdown".


(** The number of targets of the top-level assignments. *)
Definition targets_count (s : stmt) : nat :=
  match s with Assign ts _ _ => length ts | _ => 0 end.

Definition total_targets (tree : ast_Module) : nat :=
  list_sum (map targets_count (mod_body tree)).

(** [n] pruning passes, one after the other, on the trees. *)
Definition prune_passes (n : nat) (tree : ast_Module) : ast_Module :=
  Nat.iter n new_tree tree.

Definition black_header (ipynb_path : string) : level * string :=
  (INFO, "Formatting changes applied to: " +:+ ipynb_path
         +:+ " (using black)").

Definition black_not_found : level * string :=
  (WARNING, "black not found. Using basic formatter.").

(** More sample runtimes: a formatter that removes the file it is given,
    an output directory that does not exist, no temporary directory. *)
Definition black_removes : string -> gmap string string
                           -> result (gmap string string) :=
  fun path fs => Return (delete path fs).

Definition err_no_dir : exn :=
  mk_exn FileNotFoundError "[Errno 2] No such file or directory: 'out/a.py'".

Definition sample_rt_no_dir : Runtime :=
  mk_Runtime sample_parse sample_unparse sample_read (fun _ => Some err_no_dir)
    (fun _ => Return sample_tmp) black_ok.

Definition err_no_tmp : exn :=
  mk_exn FileNotFoundError "[Errno 2] No usable temporary directory found".

Definition sample_rt_no_tmp : Runtime :=
  mk_Runtime sample_parse sample_unparse sample_read (fun _ => None)
    (fun _ => Raise err_no_tmp) black_ok.

Definition w_bad : world := mk_world (<["bad.ipynb" := "{"]> ∅) [].

Definition sample_raw_notebook : notebook :=
  mk_notebook [mk_cell "raw" "notes"; mk_cell "markdown" "hello";
               mk_cell "code" src_magic].

(** The records [log_changes] adds for a list of changes. *)
Definition change_lines (header : string) (chs : list string)
  : list (level * string) :=
  if nonempty chs then
    (INFO, header) :: map (fun ch => (INFO, "  - " +:+ ch)) chs
  else [].

Definition changes_header (use_black : bool) (ipynb_path : string) : string :=
  if use_black then
    "Formatting changes applied to: " +:+ ipynb_path +:+ " (using black)"
  else "Formatting changes applied to: " +:+ ipynb_path.

(** ** Reads and bindings, independently of the walk *)

(** [reads tree x]: a [Name] node [x] in [Load] context lies in an
    expression of a statement at some depth of the cell. *)
Definition reads (tree : ast_Module) (x : string) : Prop :=
  exists s e,
    occurs_in s (mod_body tree) /\ In e (stmt_exprs s)
    /\ sub_expr (Name x Load) e.

(** [bound_in tree x]: a statement at some depth of the cell binds [x]
    in one of the four ways the second loop looks for. *)
Definition bound_in (tree : ast_Module) (x : string) : Prop :=
  exists s, occurs_in s (mod_body tree) /\ binds (NStmt s) x.

(** Induction on expressions and statements, through their lists. *)
Section expr_induction.

Variable P : expr -> Prop.
Hypothesis P_Name : forall id c, P (Name id c).
Hypothesis P_Constant : forall v, P (Constant v).
Hypothesis P_Tuple : forall elts c, Forall P elts -> P (Tuple elts c).
Hypothesis P_Attribute : forall v a c, P v -> P (Attribute v a c).
Hypothesis P_Call : forall f a, P f -> Forall P a -> P (Call f a).
Hypothesis P_OtherExpr : forall k ch, Forall P ch -> P (OtherExpr k ch).

Fixpoint expr_nested_ind (e : expr) : P e :=
  let all :=
    fix all (l : list expr) : Forall P l :=
      match l with
      | [] => @List.Forall_nil expr P
      | x :: l' => @List.Forall_cons expr P x l' (expr_nested_ind x) (all l')
      end in
  match e with
  | Name id c => P_Name id c
  | Constant v => P_Constant v
  | Tuple elts c => P_Tuple elts c (all elts)
  | Attribute v a c => P_Attribute v a c (expr_nested_ind v)
  | Call f a => P_Call f a (expr_nested_ind f) (all a)
  | OtherExpr k ch => P_OtherExpr k ch (all ch)
  end.

End expr_induction.

Section stmt_induction.

Variable P : stmt -> Prop.
Hypothesis P_Assign : forall ts v tc, P (Assign ts v tc).
Hypothesis P_For :
  forall t it b oe, Forall P b -> Forall P oe -> P (For t it b oe).
Hypothesis P_FunctionDef :
  forall n a b ds r, Forall P b -> P (FunctionDef n a b ds r).
Hypothesis P_ClassDef : forall n bs b ds, Forall P b -> P (ClassDef n bs b ds).
Hypothesis P_If : forall t b oe, Forall P b -> Forall P oe -> P (If t b oe).
Hypothesis P_While :
  forall t b oe, Forall P b -> Forall P oe -> P (While t b oe).
Hypothesis P_Expr : forall v, P (Expr v).
Hypothesis P_OtherStmt : forall k es bl, Forall P bl -> P (OtherStmt k es bl).

Fixpoint stmt_nested_ind (s : stmt) : P s :=
  let all :=
    fix all (l : list stmt) : Forall P l :=
      match l with
      | [] => @List.Forall_nil stmt P
      | x :: l' => @List.Forall_cons stmt P x l' (stmt_nested_ind x) (all l')
      end in
  match s with
  | Assign ts v tc => P_Assign ts v tc
  | For t it b oe => P_For t it b oe (all b) (all oe)
  | FunctionDef n a b ds r => P_FunctionDef n a b ds r (all b)
  | ClassDef n bs b ds => P_ClassDef n bs b ds (all b)
  | If t b oe => P_If t b oe (all b) (all oe)
  | While t b oe => P_While t b oe (all b) (all oe)
  | Expr v => P_Expr v
  | OtherStmt k es bl => P_OtherStmt k es bl (all bl)
  end.

End stmt_induction.

(** What the walk of a statement can yield, said without the walk:
    [within s' s] when [s'] is [s] or occurs below it. *)
Definition within (s' s : stmt) : Prop :=
  s' = s \/ occurs_in s' (child_stmts s).

Definition in_exprs (es : list expr) (n : node) : Prop :=
  match n with
  | NExpr e' => exists e, In e es /\ sub_expr e' e
  | NStmt _ | NModule _ => False
  | _ => True
  end.

Definition in_stmt (s : stmt) (n : node) : Prop :=
  match n with
  | NExpr e' =>
      exists s' e, within s' s /\ In e (stmt_exprs s') /\ sub_expr e' e
  | NStmt s' => within s' s
  | NModule _ => False
  | _ => True
  end.

Definition in_block (b : list stmt) (n : node) : Prop :=
  match n with
  | NExpr e' =>
      exists s' e, occurs_in s' b /\ In e (stmt_exprs s') /\ sub_expr e' e
  | NStmt s' => occurs_in s' b
  | NModule _ => False
  | _ => True
  end.

(** [def g(po, /, p, *q, r=1, **s): pass] *)
Definition tree_params : ast_Module :=
  mk_Module
    [FunctionDef "g"
       (mk_arguments [mk_arg "po" None] [mk_arg "p" None]
          (Some (mk_arg "q" None)) [mk_arg "r" None] [Some (Constant "1")]
          (Some (mk_arg "s" None)) [])
       [OtherStmt "Pass" [] []] [] None].

(** The outcome of the pruning pass on a cell that parses, from the
    outcome of the rendering. *)
Definition rendered_outcome (src : string) (r : result string) (w : world)
  : result string * world :=
  match r with
  | Return text => (Return text, w)
  | Raise e =>
      if isinstance_SyntaxError e
      then (Return src, add_log w [syntax_warning e])
      else (Raise e, w)
  end.

(** * Theorems *)

(** ** Running the computations *)

Lemma bind_Return {A B} (c : M A) (k : A -> M B) w a w' :
  c w = (Return a, w') -> bind c k w = k a w'.
Proof. intros H. unfold bind. now rewrite H. Qed.

Lemma bind_Raise {A B} (c : M A) (k : A -> M B) w e w' :
  c w = (Raise e, w') -> bind c k w = (Raise e, w').
Proof. intros H. unfold bind. now rewrite H. Qed.

Lemma try_Return {A} (c : M A) h w a w' :
  c w = (Return a, w') -> try_except c h w = (Return a, w').
Proof. intros H. unfold try_except. now rewrite H. Qed.

Lemma try_Raise {A} (c : M A) h w e w' :
  c w = (Raise e, w') ->
  try_except c h w
  = match h e with Some k => k w' | None => (Raise e, w') end.
Proof. intros H. unfold try_except. now rewrite H. Qed.

(** ** The two name collections *)

Lemma elem_of_fold_used x l : forall acc,
  x ∈ fold_left used_step l acc <-> x ∈ acc \/ In (NExpr (Name x Load)) l.
Proof.
  induction l as [|n l IH]; intros acc; simpl.
  - tauto.
  - rewrite IH. split.
    + intros [Hx | Hx]; [|tauto].
      destruct n as [| |e| | |]; simpl in Hx; try tauto.
      destruct e as [id c| | | | |]; simpl in Hx; try tauto.
      destruct c; simpl in Hx; try tauto.
      apply elem_of_union in Hx as [Hx | Hx]; [tauto|].
      apply elem_of_singleton in Hx. subst. auto.
    + intros [Hx | [Hx | Hx]]; [| |tauto]; left.
      * destruct n as [| |e| | |]; simpl; try assumption.
        destruct e as [id c| | | | |]; simpl; try assumption.
        destruct c; simpl; try assumption. set_solver.
      * subst n. simpl. set_solver.
Qed.

Lemma elem_of_fold_add_target x ts : forall acc,
  x ∈ fold_left add_target ts acc <-> x ∈ acc \/ exists c, In (Name x c) ts.
Proof.
  induction ts as [|t ts IH]; intros acc; simpl.
  - split; [tauto | intros [H | [c []]]; exact H].
  - rewrite IH. split.
    + intros [Hx | [c Hc]]; [| right; exists c; auto].
      destruct t as [id c| | | | |]; simpl in Hx; try tauto.
      apply elem_of_union in Hx as [Hx | Hx]; [tauto|].
      apply elem_of_singleton in Hx. subst. right. exists c. auto.
    + intros [Hx | [c [Hc | Hc]]].
      * left. destruct t; simpl; try assumption. set_solver.
      * subst t. left. simpl. set_solver.
      * right. exists c. exact Hc.
Qed.

Lemma elem_of_fold_add_arg x ps : forall acc,
  x ∈ fold_left add_arg ps acc
  <-> x ∈ acc \/ exists p, In p ps /\ arg_arg p = x.
Proof.
  induction ps as [|p ps IH]; intros acc; simpl.
  - split; [tauto | intros [H | [p [[] _]]]; exact H].
  - rewrite IH. unfold add_arg. split.
    + intros [Hx | [q [Hq Hx]]]; [| right; exists q; auto].
      apply elem_of_union in Hx as [Hx | Hx]; [tauto|].
      apply elem_of_singleton in Hx. right. exists p. auto.
    + intros [Hx | [q [[Hq | Hq] Hx]]].
      * left. set_solver.
      * subst q. left. set_solver.
      * right. exists q. auto.
Qed.

Lemma elem_of_defined_step x n acc :
  x ∈ defined_step acc n <-> x ∈ acc \/ binds n x.
Proof.
  destruct n as [|s| | | |]; simpl; try tauto.
  destruct s as [ts v tc|t it b oe|name a b ds r|name bs b ds| | | |];
    simpl; try tauto.
  - apply elem_of_fold_add_target.
  - destruct t as [id c| | | | |]; simpl;
      try (split; [tauto | intros [H | [c H]]; [exact H | discriminate H]]).
    rewrite elem_of_union, elem_of_singleton. split.
    + intros [H | H]; [tauto | subst; right; eauto].
    + intros [H | [c' H]]; [tauto | injection H as -> _; tauto].
  - rewrite elem_of_fold_add_arg, elem_of_union, elem_of_singleton. tauto.
  - rewrite elem_of_union, elem_of_singleton. tauto.
Qed.

Lemma elem_of_fold_defined x l : forall acc,
  x ∈ fold_left defined_step l acc
  <-> x ∈ acc \/ exists n, In n l /\ binds n x.
Proof.
  induction l as [|n l IH]; intros acc; simpl.
  - split; [tauto | intros [H | [n [[] _]]]; exact H].
  - rewrite IH, elem_of_defined_step. split.
    + intros [[H | H] | [m [Hm H]]]; eauto.
    + intros [H | [m [[Hm | Hm] H]]]; subst; eauto.
Qed.

Lemma elem_of_used_vars x tree :
  x ∈ used_vars tree <-> In (NExpr (Name x Load)) (walk tree).
Proof.
  unfold used_vars. rewrite elem_of_fold_used. set_solver.
Qed.

Lemma elem_of_defined_vars x tree :
  x ∈ defined_vars tree <-> exists n, In n (walk tree) /\ binds n x.
Proof.
  unfold defined_vars. rewrite elem_of_fold_defined. set_solver.
Qed.

Lemma walk_stmt_head s : In (NStmt s) (walk_stmt s).
Proof. destruct s; simpl; auto. Qed.

Lemma top_level_in_walk s tree :
  In s (mod_body tree) -> In (NStmt s) (walk tree).
Proof.
  intros H. unfold walk. right. apply in_flat_map. exists s.
  split; [exact H | apply walk_stmt_head].
Qed.

(** A [Name] target of a top-level assignment is in [defined_vars], so it
    is unused exactly when it is never read. *)
Lemma top_level_target_defined tree ts v tc x c :
  In (Assign ts v tc) (mod_body tree) -> In (Name x c) ts ->
  x ∈ defined_vars tree.
Proof.
  intros Hs Hx. apply elem_of_defined_vars.
  exists (NStmt (Assign ts v tc)). split.
  - now apply top_level_in_walk.
  - simpl. eauto.
Qed.

Lemma top_level_target_unused tree ts v tc x c :
  In (Assign ts v tc) (mod_body tree) -> In (Name x c) ts ->
  x ∈ unused_vars tree <-> x ∉ used_vars tree.
Proof.
  intros Hs Hx. unfold unused_vars. rewrite elem_of_difference.
  pose proof (top_level_target_defined _ _ _ _ _ _ Hs Hx). tauto.
Qed.

(** ** The rebuild loops *)

Lemma fold_keep_target unused ts : forall acc,
  fold_left (keep_target unused) ts acc
  = acc ++ List.filter (is_kept_target unused) ts.
Proof.
  induction ts as [|t ts IH]; intros acc; simpl.
  - now rewrite app_nil_r.
  - rewrite IH. destruct t as [id c| | | | |]; simpl; try reflexivity.
    destruct (decide (id ∉ unused)) as [Hd | Hd].
    + rewrite bool_decide_eq_true_2 by exact Hd.
      now rewrite <- app_assoc.
    + rewrite bool_decide_eq_false_2 by exact Hd. reflexivity.
Qed.

Lemma rebuild_step_spec unused acc s :
  rebuild_step unused acc s
  = acc ++ match rebuild_stmt unused s with Some s' => [s'] | None => [] end.
Proof.
  destruct s; simpl; try reflexivity.
  rewrite fold_keep_target. simpl.
  destruct (List.filter (is_kept_target unused) targets);
    [now rewrite app_nil_r | reflexivity].
Qed.

Lemma fold_rebuild_step unused body : forall acc,
  fold_left (rebuild_step unused) body acc
  = acc ++ omap (rebuild_stmt unused) body.
Proof.
  induction body as [|s body IH]; intros acc; simpl.
  - now rewrite app_nil_r.
  - rewrite IH, rebuild_step_spec.
    destruct (rebuild_stmt unused s); simpl.
    + now rewrite <- app_assoc.
    + now rewrite app_nil_r.
Qed.

Lemma new_tree_spec tree :
  new_tree tree
  = mk_Module (omap (rebuild_stmt (unused_vars tree)) (mod_body tree)).
Proof. unfold new_tree. now rewrite fold_rebuild_step. Qed.

(** The pass on a cell that parses ends as the rendering of the pruned
    tree does: its text, or its exception, which the handler takes when
    it is a syntax error. *)
Lemma remove_unused_parsed rt src tree w :
  ast_parse rt src = Return tree ->
  remove_unused_variables rt src w
  = rendered_outcome src (unparse rt (new_tree tree)) w.
Proof.
  intros H. unfold remove_unused_variables, rendered_outcome, try_except.
  unfold bind, lift. rewrite H.
  destruct (unparse rt (new_tree tree)) as [text | e]; [reflexivity |].
  destruct (isinstance_SyntaxError e); reflexivity.
Qed.

Lemma remove_unused_rendered rt src tree text w :
  ast_parse rt src = Return tree ->
  unparse rt (new_tree tree) = Return text ->
  remove_unused_variables rt src w = (Return text, w).
Proof.
  intros Hp Hu. rewrite (remove_unused_parsed _ _ _ _ Hp). now rewrite Hu.
Qed.

Lemma remove_unused_not_rendered rt src tree e w :
  ast_parse rt src = Return tree ->
  unparse rt (new_tree tree) = Raise e ->
  isinstance_SyntaxError e = false ->
  remove_unused_variables rt src w = (Raise e, w).
Proof.
  intros Hp Hu He. rewrite (remove_unused_parsed _ _ _ _ Hp).
  unfold rendered_outcome. now rewrite Hu, He.
Qed.

Lemma filter_kept_read tree ts v tc :
  In (Assign ts v tc) (mod_body tree) ->
  List.filter (is_kept_target (unused_vars tree)) ts
  = List.filter (is_read_target (used_vars tree)) ts.
Proof.
  intros Hs. apply filter_ext_in. intros t Ht.
  destruct t as [x c| | | | |]; simpl; try reflexivity.
  pose proof (top_level_target_unused _ _ _ _ _ _ Hs Ht) as Hu.
  apply bool_decide_ext. rewrite Hu.
  destruct (decide (x ∈ used_vars tree)); tauto.
Qed.

Lemma non_name_targets_dropped unused ts v tc :
  forallb (fun t => negb (is_Name t)) ts = true ->
  rebuild_stmt unused (Assign ts v tc) = None.
Proof.
  intros H. simpl.
  replace (List.filter (is_kept_target unused) ts) with (@nil expr);
    [reflexivity |].
  symmetry. induction ts as [|t ts IH]; [reflexivity |].
  simpl in H. apply andb_prop in H as [Ht Hts].
  destruct t; simpl in *; try discriminate; auto.
Qed.

(** C3. The cell [a, b = 1, 2] followed by [print(a)]: the only target of
    the assignment is a tuple, not a name, so the loop keeps no target and
    the statement goes, although [a] is read by the next statement. *)
Theorem tuple_assignment_dropped_though_read :
  ast_parse (sample_rt black_ok) src_tuple = Return tree_tuple
  /\ "a" ∈ used_vars tree_tuple
  /\ new_tree tree_tuple = mk_Module [call_print (Name "a" Load)]
  /\ remove_unused_variables (sample_rt black_ok) src_tuple w0
     = (Return (NL +:+ "print(a)" +:+ NL), w0).
Proof.
  split; [reflexivity |]. split; [| split].
  - apply (bool_decide_eq_true_1 _). vm_compute. reflexivity.
  - vm_compute. reflexivity.
  - rewrite (remove_unused_parsed _ _ tree_tuple) by reflexivity.
    vm_compute. reflexivity.
Qed.

(** ** The walk reaches every depth *)

Lemma in_flat_map_incl {A B} (f : A -> list B) x l :
  In x l -> incl (f x) (flat_map f l).
Proof. intros H y Hy. apply in_flat_map. eauto. Qed.

Ltac in_apps := simpl; repeat rewrite in_app_iff; simpl; auto 10.

Lemma walk_expr_head e : In (NExpr e) (walk_expr e).
Proof. destruct e; simpl; auto. Qed.

Lemma child_exprs_walk e c :
  In c (child_exprs e) -> incl (walk_expr c) (walk_expr e).
Proof.
  intros H n Hn. destruct e; simpl in H; try contradiction.
  - right. apply in_app_iff. left.
    exact (in_flat_map_incl walk_expr _ _ H _ Hn).
  - destruct H as [<- | []]. in_apps.
  - simpl. right. apply in_app_iff. destruct H as [<- | H]; [auto |].
    right. exact (in_flat_map_incl walk_expr _ _ H _ Hn).
  - right. exact (in_flat_map_incl walk_expr _ _ H _ Hn).
Qed.

Lemma sub_expr_walk e' e : sub_expr e' e -> incl (walk_expr e') (walk_expr e).
Proof.
  induction 1 as [| e c Hc _ IH]; [apply incl_refl |].
  eapply incl_tran; [exact IH | now apply child_exprs_walk].
Qed.

Lemma arg_exprs_walk p e : In e (arg_exprs p) -> incl (walk_expr e) (walk_arg p).
Proof.
  intros H n Hn. unfold walk_arg. right.
  exact (in_flat_map_incl walk_expr _ _ H _ Hn).
Qed.

Lemma flat_arg_exprs_walk ps e :
  In e (flat_map arg_exprs ps) -> incl (walk_expr e) (flat_map walk_arg ps).
Proof.
  intros H n Hn. apply in_flat_map in H as [p [Hp He]].
  apply in_flat_map. exists p. split; [exact Hp |].
  exact (arg_exprs_walk _ _ He _ Hn).
Qed.

Lemma arguments_exprs_walk a e :
  In e (arguments_exprs a) -> incl (walk_expr e) (walk_arguments a).
Proof.
  intros H n Hn. unfold arguments_exprs in H. unfold walk_arguments.
  right. repeat rewrite in_app_iff in H. repeat rewrite in_app_iff.
  destruct H as [H | [H | [H | [H | [H | [H | H]]]]]].
  - left. exact (flat_arg_exprs_walk _ _ H _ Hn).
  - right; left. exact (flat_arg_exprs_walk _ _ H _ Hn).
  - do 2 right; left. exact (flat_arg_exprs_walk _ _ H _ Hn).
  - do 3 right; left. exact (flat_arg_exprs_walk _ _ H _ Hn).
  - do 4 right; left. apply in_flat_map in H as [d [Hd He]].
    apply in_flat_map. exists d. split; [exact Hd |].
    exact (in_flat_map_incl walk_expr _ _ He _ Hn).
  - do 5 right; left. exact (flat_arg_exprs_walk _ _ H _ Hn).
  - do 6 right. exact (in_flat_map_incl walk_expr _ _ H _ Hn).
Qed.

Lemma stmt_exprs_walk s e :
  In e (stmt_exprs s) -> incl (walk_expr e) (walk_stmt s).
Proof.
  intros H n Hn.
  destruct s as [ts v tc|t it b oe|name a b ds r|name bs b ds|t b oe|t b oe|v
                |k es bl]; cbn [stmt_exprs] in H; cbn [walk_stmt]; right.
  - apply in_app_iff in H as [H | [<- | []]]; apply in_app_iff; [left | auto].
    exact (in_flat_map_incl walk_expr _ _ H _ Hn).
  - destruct H as [<- | [<- | []]]; in_apps.
  - repeat rewrite in_app_iff in H. repeat rewrite in_app_iff.
    destruct H as [H | [H | H]].
    + left. exact (arguments_exprs_walk _ _ H _ Hn).
    + do 2 right; left. exact (in_flat_map_incl walk_expr _ _ H _ Hn).
    + do 3 right. exact (in_flat_map_incl walk_expr _ _ H _ Hn).
  - repeat rewrite in_app_iff in H. repeat rewrite in_app_iff.
    destruct H as [H | H].
    + left. exact (in_flat_map_incl walk_expr _ _ H _ Hn).
    + do 2 right. exact (in_flat_map_incl walk_expr _ _ H _ Hn).
  - destruct H as [<- | []]; in_apps.
  - destruct H as [<- | []]; in_apps.
  - destruct H as [<- | []]; in_apps.
  - apply in_app_iff. left. exact (in_flat_map_incl walk_expr _ _ H _ Hn).
Qed.

Lemma child_stmts_walk s s' :
  In s' (child_stmts s) -> incl (walk_stmt s') (walk_stmt s).
Proof.
  intros H n Hn.
  destruct s as [ts v tc|t it b oe|name a b ds r|name bs b ds|t b oe|t b oe|v
                |k es bl]; simpl in H; try contradiction; simpl; right;
    try apply in_app_iff in H as [H | H];
    pose proof (in_flat_map_incl walk_stmt _ _ H _ Hn); in_apps.
Qed.

Lemma occurs_in_walk s b :
  occurs_in s b -> incl (walk_stmt s) (flat_map walk_stmt b).
Proof.
  induction 1 as [b H | b s' Hs' _ IH].
  - now apply in_flat_map_incl.
  - intros n Hn. apply in_flat_map. exists s'. split; [exact Hs' |].
    apply IH in Hn. apply in_flat_map in Hn as [s'' [Hc Hn]].
    exact (child_stmts_walk _ _ Hc _ Hn).
Qed.

(** C9, counterexample. In the cell [def f(): y = x] the name [x] is read
    and the name [y] is bound only inside the body of [f]; both are
    collected, which a collection that stays out of nested scopes would
    not do. *)
Lemma name_collection_not_top_level_only :
  ("x" ∈ used_vars tree_nested) /\ ("x" ∉ used_vars_outer tree_nested)
  /\ ("y" ∈ defined_vars tree_nested)
  /\ ("y" ∉ defined_vars_outer tree_nested).
Proof.
  split; [| split; [| split]].
  - apply (bool_decide_eq_true_1 _). vm_compute. reflexivity.
  - apply (bool_decide_eq_false_1 _). vm_compute. reflexivity.
  - apply (bool_decide_eq_true_1 _). vm_compute. reflexivity.
  - apply (bool_decide_eq_false_1 _). vm_compute. reflexivity.
Qed.

(** ** What the walk yields lies in the tree *)

Lemma occurs_in_incl s b b' : occurs_in s b -> incl b b' -> occurs_in s b'.
Proof.
  intros [b0 H | b0 s' H1 H2] Hi.
  - apply occurs_here. now apply Hi.
  - eapply occurs_below; [apply Hi; exact H1 | exact H2].
Qed.

Lemma in_exprs_incl es es' n : in_exprs es n -> incl es es' -> in_exprs es' n.
Proof.
  destruct n; simpl; try tauto. intros (e0 & H1 & H2) Hi. exists e0. auto.
Qed.

Lemma in_exprs_flat es n :
  Forall (fun e => forall n, In n (walk_expr e) -> in_exprs [e] n) es ->
  In n (flat_map walk_expr es) -> in_exprs es n.
Proof.
  intros Hall H. apply in_flat_map in H as [x [Hx Hn]].
  apply (proj1 (List.Forall_forall _ _) Hall x Hx) in Hn.
  apply (in_exprs_incl [x]); [exact Hn |].
  intros z [<- | []]. exact Hx.
Qed.

(** An expression below a child of [e] is below [e]. *)
Lemma in_exprs_child e es n :
  incl es (child_exprs e) -> in_exprs es n -> in_exprs [e] n.
Proof.
  intros Hi. destruct n; simpl; try tauto.
  intros (c & Hc & Hs). exists e. split; [now left |].
  eapply sub_child; [apply Hi; exact Hc | exact Hs].
Qed.

Lemma in_exprs_self e : in_exprs [e] (NExpr e).
Proof. exists e. split; [now left | apply sub_refl]. Qed.

Lemma walk_expr_inv e : forall n, In n (walk_expr e) -> in_exprs [e] n.
Proof.
  induction e as [id c|v|elts c IH|v a c IH|f a IHf IHa|k ch IH]
    using expr_nested_ind; intros n H; cbn [walk_expr] in H;
    destruct H as [<- | H]; try apply in_exprs_self.
  - destruct H as [<- | []]. exact I.
  - destruct H.
  - apply in_app_iff in H as [H | [<- | []]]; [| exact I].
    apply (in_exprs_child _ elts); [apply incl_refl |].
    now apply in_exprs_flat.
  - apply in_app_iff in H as [H | [<- | []]]; [| exact I].
    apply (in_exprs_child _ [v]); [intros z [<- | []]; now left |].
    now apply IH.
  - apply in_app_iff in H as [H | H].
    + apply (in_exprs_child _ [f]); [intros z [<- | []]; now left |].
      now apply IHf.
    + apply (in_exprs_child _ a); [intros z Hz; now right |].
      now apply in_exprs_flat.
  - apply (in_exprs_child _ ch); [apply incl_refl |].
    now apply in_exprs_flat.
Qed.

Lemma walk_exprs_inv es n : In n (flat_map walk_expr es) -> in_exprs es n.
Proof.
  apply in_exprs_flat. apply List.Forall_forall. intros e _.
  apply walk_expr_inv.
Qed.

Lemma walk_args_inv ps n :
  In n (flat_map walk_arg ps) -> in_exprs (flat_map arg_exprs ps) n.
Proof.
  intros H. apply in_flat_map in H as [p [Hp Hn]].
  unfold walk_arg in Hn. destruct Hn as [<- | Hn]; [exact I |].
  apply walk_exprs_inv in Hn. apply (in_exprs_incl _ _ _ Hn).
  intros z Hz. apply in_flat_map. exists p. auto.
Qed.

Lemma walk_arguments_inv a n :
  In n (walk_arguments a) -> in_exprs (arguments_exprs a) n.
Proof.
  unfold walk_arguments, arguments_exprs. intros [<- | H]; [exact I |].
  repeat (apply in_app_or in H; destruct H as [H | H]).
  - apply walk_args_inv in H. apply (in_exprs_incl _ _ _ H).
    intros z Hz. repeat rewrite in_app_iff. auto.
  - apply walk_args_inv in H. apply (in_exprs_incl _ _ _ H).
    intros z Hz. repeat rewrite in_app_iff. auto.
  - apply walk_args_inv in H. apply (in_exprs_incl _ _ _ H).
    intros z Hz. repeat rewrite in_app_iff. auto.
  - apply walk_args_inv in H. apply (in_exprs_incl _ _ _ H).
    intros z Hz. repeat rewrite in_app_iff. auto 10.
  - apply in_flat_map in H as [d [Hd Hn]]. apply walk_exprs_inv in Hn.
    apply (in_exprs_incl _ _ _ Hn). intros z Hz.
    repeat rewrite in_app_iff. do 4 right. left.
    apply in_flat_map. exists d. auto.
  - apply walk_args_inv in H. apply (in_exprs_incl _ _ _ H).
    intros z Hz. repeat rewrite in_app_iff. auto 10.
  - apply walk_exprs_inv in H. apply (in_exprs_incl _ _ _ H).
    intros z Hz. repeat rewrite in_app_iff. auto 10.
Qed.

Lemma in_exprs_stmt s es n :
  incl es (stmt_exprs s) -> in_exprs es n -> in_stmt s n.
Proof.
  intros Hi. destruct n; simpl; try tauto.
  intros (e0 & H1 & H2). exists s, e0.
  split; [now left |]. split; [now apply Hi | exact H2].
Qed.

Lemma in_block_of_stmt s0 b n : In s0 b -> in_stmt s0 n -> in_block b n.
Proof.
  intros Hs. destruct n; simpl; try tauto.
  - intros [-> | H]; [now apply occurs_here | now apply (occurs_below _ _ s0)].
  - intros (s' & e0 & Hw & H1 & H2). exists s', e0. split; [| auto].
    destruct Hw as [-> | H];
      [now apply occurs_here | now apply (occurs_below _ _ s0)].
Qed.

Lemma in_block_flat b n :
  Forall (fun s0 => forall n, In n (walk_stmt s0) -> in_stmt s0 n) b ->
  In n (flat_map walk_stmt b) -> in_block b n.
Proof.
  intros Hall H. apply in_flat_map in H as [s0 [Hs Hn]].
  apply (proj1 (List.Forall_forall _ _) Hall s0 Hs) in Hn.
  now apply (in_block_of_stmt s0).
Qed.

Lemma in_block_stmt s b n :
  incl b (child_stmts s) -> in_block b n -> in_stmt s n.
Proof.
  intros Hi. destruct n; simpl; try tauto.
  - intros H. right. now apply (occurs_in_incl _ b).
  - intros (s' & e0 & H & H1 & H2). exists s', e0.
    split; [right; now apply (occurs_in_incl _ b) | auto].
Qed.

Ltac solve_incl :=
  let z := fresh "z" in
  let Hz := fresh "Hz" in
  intros z Hz; cbn [stmt_exprs child_stmts]; repeat rewrite in_app_iff;
  simpl in Hz; simpl; intuition auto.

Ltac walk_piece :=
  match goal with
  | H : In _ (flat_map walk_stmt ?b), IH : Forall _ ?b |- _ =>
      apply (in_block_stmt _ b); [solve_incl | exact (in_block_flat b _ IH H)]
  | H : In _ (flat_map walk_expr ?es) |- _ =>
      apply (in_exprs_stmt _ es); [solve_incl | exact (walk_exprs_inv es _ H)]
  | H : In _ (walk_arguments ?a) |- _ =>
      apply (in_exprs_stmt _ (arguments_exprs a));
      [solve_incl | exact (walk_arguments_inv a _ H)]
  | H : In _ (walk_expr ?e) |- _ =>
      apply (in_exprs_stmt _ [e]); [solve_incl | exact (walk_expr_inv e _ H)]
  end.

Lemma walk_stmt_inv s : forall n, In n (walk_stmt s) -> in_stmt s n.
Proof.
  induction s as [ts v tc|t it b oe IHb IHoe|name a b ds r IHb
                 |name bs b ds IHb|t b oe IHb IHoe|t b oe IHb IHoe|v
                 |k es bl IHb] using stmt_nested_ind;
    intros n H; cbn [walk_stmt] in H;
    (destruct H as [<- | H]; [now left |]);
    repeat (apply in_app_or in H; destruct H as [H | H]);
    walk_piece.
Qed.

Lemma walk_inv tree n :
  In n (walk tree) -> n = NModule tree \/ in_block (mod_body tree) n.
Proof.
  intros [<- | H]; [now left |]. right.
  apply in_block_flat; [| exact H].
  apply List.Forall_forall. intros s _. apply walk_stmt_inv.
Qed.

(** [used_vars] holds exactly the names read somewhere in the cell,
    [defined_vars] exactly the names bound somewhere in it. *)
Lemma used_vars_reads tree x : x ∈ used_vars tree <-> reads tree x.
Proof.
  rewrite elem_of_used_vars. split.
  - intros H. apply walk_inv in H as [H | H]; [discriminate H | exact H].
  - intros (s & e & Hs & He & Hx). right.
    apply (occurs_in_walk _ _ Hs). apply (stmt_exprs_walk _ _ He).
    apply (sub_expr_walk _ _ Hx). apply walk_expr_head.
Qed.

Lemma defined_vars_bound tree x : x ∈ defined_vars tree <-> bound_in tree x.
Proof.
  rewrite elem_of_defined_vars. split.
  - intros (n & Hn & Hb). destruct n as [|s| | | |]; try destruct Hb.
    apply walk_inv in Hn as [Hn | Hn]; [discriminate Hn |].
    exists s. split; [exact Hn | exact Hb].
  - intros (s & Hs & Hb). exists (NStmt s). split; [| exact Hb].
    right. apply (occurs_in_walk _ _ Hs). apply walk_stmt_head.
Qed.

Lemma reads_dec_false tree x : x ∉ used_vars tree -> ~ reads tree x.
Proof. intros H Hr. apply H. now apply used_vars_reads. Qed.

(** C9, as amended. The name collection walks the whole tree: a name is
    in [used_vars] exactly when a [Name] node with it in [Load] context
    lies somewhere in the cell, at any depth; a name is in [defined_vars]
    exactly when a statement at any depth binds it as a plain-name target
    of an assignment, the plain-name target of a [for] loop, the name of a
    function or class definition, or a parameter in [args.args] of a
    function definition. In particular the reads and these bindings of a
    statement at any depth of the body of a top-level function or class
    definition are collected. *)
Theorem name_collection_walks_whole_tree tree :
  (forall x, x ∈ used_vars tree <-> reads tree x)
  /\ (forall x, x ∈ defined_vars tree <-> bound_in tree x)
  /\ (forall d s,
        In d (mod_body tree) -> occurs_in s (child_stmts d) ->
        (forall e x, In e (stmt_exprs s) -> sub_expr (Name x Load) e ->
           x ∈ used_vars tree)
        /\ (forall x, binds (NStmt s) x -> x ∈ defined_vars tree)).
Proof.
  split; [apply used_vars_reads |]. split; [apply defined_vars_bound |].
  intros d s Hd Hs.
  assert (Ho : occurs_in s (mod_body tree)) by (eapply occurs_below; eauto).
  split.
  - intros e x He Hx. apply used_vars_reads. exists s, e. auto.
  - intros x Hx. apply defined_vars_bound. exists s. auto.
Qed.

Lemma name_collection_walks_whole_tree_witness :
  ("x" ∈ used_vars tree_nested) /\ ("y" ∈ defined_vars tree_nested)
  /\ ("g" ∈ defined_vars tree_params) /\ ("p" ∈ defined_vars tree_params)
  /\ ("po" ∉ defined_vars tree_params) /\ ("q" ∉ defined_vars tree_params)
  /\ ("r" ∉ defined_vars tree_params) /\ ("s" ∉ defined_vars tree_params)
  /\ ("a" ∉ defined_vars tree_tuple).
Proof.
  assert (H : occurs_in (assign1 "y" (Name "x" Load)) (mod_body tree_nested)).
  { eapply occurs_below; [left; reflexivity |].
    apply occurs_here. left. reflexivity. }
  destruct (name_collection_walks_whole_tree tree_nested) as (Hu & Hd & _).
  destruct (name_collection_walks_whole_tree tree_params) as (_ & Hp & _).
  split.
  { apply Hu. exists (assign1 "y" (Name "x" Load)), (Name "x" Load).
    split; [exact H |]. split; [simpl; auto | apply sub_refl]. }
  split.
  { apply Hd. exists (assign1 "y" (Name "x" Load)). split; [exact H |].
    simpl. exists Store. left. reflexivity. }
  split.
  { apply Hp. eexists. split; [apply occurs_here; left; reflexivity |].
    simpl. left. reflexivity. }
  split.
  { apply Hp. eexists. split; [apply occurs_here; left; reflexivity |].
    simpl. right. exists (mk_arg "p" None). split; [left |]; reflexivity. }
  repeat split; apply (bool_decide_eq_false_1 _); vm_compute; reflexivity.
Defined.

(** ** What the pass removes and keeps *)

(** C1, counterexample. The cell [x = 5] followed by a [match]
    statement parses, and [x] is never read; the renderer has no method
    for the [match] node and raises, which is not a syntax error: the
    pass returns no text, neither with [x = 5] removed nor with the
    [match] statement kept. *)
Lemma pruning_fails_on_unrendered_cell :
  ast_parse (sample_rt black_ok) src_match = Return tree_match
  /\ ~ reads tree_match "x"
  /\ unparse (sample_rt black_ok) (new_tree tree_match) = Raise err_unparse
  /\ remove_unused_variables (sample_rt black_ok) src_match w0
     = (Raise err_unparse, w0).
Proof.
  split; [reflexivity |]. split; [| split].
  - apply reads_dec_false. apply (bool_decide_eq_false_1 _).
    vm_compute. reflexivity.
  - vm_compute. reflexivity.
  - vm_compute. reflexivity.
Qed.

(** C1, as amended. When the cell parses, the pruned tree is the
    top-level statements rebuilt one by one, and the pass returns its
    rendering when the renderer returns one; when the renderer raises
    anything but a syntax error, the pass raises it. [used_vars] holds
    exactly the names read somewhere in the cell and [defined_vars] the
    names bound somewhere in it. An assignment keeps exactly its [Name]
    targets that are read somewhere in the cell, and goes when none is
    left; an assignment to one name that is never read is removed, one to
    a name that is read stays as it is; any statement that is not an
    assignment stays as it is. *)
Theorem pruning_top_level_assignments rt src tree w :
  ast_parse rt src = Return tree ->
  new_tree tree
  = mk_Module (omap (rebuild_stmt (unused_vars tree)) (mod_body tree))
  /\ (forall text, unparse rt (new_tree tree) = Return text ->
        remove_unused_variables rt src w = (Return text, w))
  /\ (forall e, unparse rt (new_tree tree) = Raise e ->
        isinstance_SyntaxError e = false ->
        remove_unused_variables rt src w = (Raise e, w))
  /\ (forall x, x ∈ used_vars tree <-> reads tree x)
  /\ (forall x, x ∈ defined_vars tree <-> bound_in tree x)
  /\ (forall x, x ∈ unused_vars tree <-> bound_in tree x /\ ~ reads tree x)
  /\ (forall ts v tc, In (Assign ts v tc) (mod_body tree) ->
        rebuild_stmt (unused_vars tree) (Assign ts v tc)
        = match List.filter (is_read_target (used_vars tree)) ts with
          | [] => None
          | ts' => Some (Assign ts' v tc)
          end)
  /\ (forall x c v tc, In (Assign [Name x c] v tc) (mod_body tree) ->
        bound_in tree x
        /\ (~ reads tree x ->
            rebuild_stmt (unused_vars tree) (Assign [Name x c] v tc) = None)
        /\ (reads tree x ->
            rebuild_stmt (unused_vars tree) (Assign [Name x c] v tc)
            = Some (Assign [Name x c] v tc)))
  /\ (forall s, is_Assign s = false ->
        rebuild_stmt (unused_vars tree) s = Some s).
Proof.
  intros Hp. repeat apply conj.
  - apply new_tree_spec.
  - intros text Hu. exact (remove_unused_rendered _ _ _ _ w Hp Hu).
  - intros e Hu He. exact (remove_unused_not_rendered _ _ _ _ w Hp Hu He).
  - intros x. apply used_vars_reads.
  - intros x. apply defined_vars_bound.
  - intros x. unfold unused_vars.
    rewrite elem_of_difference, used_vars_reads, defined_vars_bound. tauto.
  - intros ts v tc Hs. simpl. now rewrite (filter_kept_read _ _ _ _ Hs).
  - intros x c v tc Hs.
    assert (Hin : In (Name x c) [Name x c]) by (left; reflexivity).
    split.
    { apply defined_vars_bound.
      exact (top_level_target_defined _ _ _ _ _ _ Hs Hin). }
    pose proof (filter_kept_read _ _ _ _ Hs) as Hf. simpl in Hf.
    split; intros Hx; simpl; rewrite Hf.
    + rewrite bool_decide_eq_false_2; [reflexivity |].
      intros Hu. apply Hx. now apply used_vars_reads.
    + rewrite bool_decide_eq_true_2; [reflexivity |].
      now apply used_vars_reads.
  - intros s Hs. destruct s; simpl in *; congruence.
Qed.

Lemma pruning_top_level_assignments_witness :
  ast_parse (sample_rt black_ok) src_unused = Return tree_unused
  /\ remove_unused_variables (sample_rt black_ok) src_unused w0
     = (Return (NL +:+ "print(1)" +:+ NL), w0)
  /\ ast_parse (sample_rt black_ok) src_used = Return tree_used
  /\ reads tree_used "x"
  /\ remove_unused_variables (sample_rt black_ok) src_used w0
     = (Return (NL +:+ "x = 5" +:+ NL +:+ "print(x)" +:+ NL), w0).
Proof.
  split; [reflexivity |].
  destruct (pruning_top_level_assignments (sample_rt black_ok) src_unused
              tree_unused w0 eq_refl) as (_ & H1 & _).
  destruct (pruning_top_level_assignments (sample_rt black_ok) src_used
              tree_used w0 eq_refl) as (_ & H2 & _ & Hu & _).
  split; [apply H1; vm_compute; reflexivity |].
  split; [reflexivity |].
  split.
  - apply Hu. apply (bool_decide_eq_true_1 _). vm_compute. reflexivity.
  - apply H2. vm_compute. reflexivity.
Defined.

(** ** Pruning a pruned tree *)

Lemma in_omap {A B} (f : A -> option B) y l :
  In y (omap f l) <-> exists x, In x l /\ f x = Some y.
Proof.
  rewrite <- list_elem_of_In, list_elem_of_omap.
  split; intros [x [H1 H2]]; exists x; split; auto;
    now apply list_elem_of_In.
Qed.

Lemma length_omap {A B} (f : A -> option B) l :
  length (omap f l) <= length l.
Proof.
  induction l as [|x l IH]; cbn; [lia |].
  destruct (f x); cbn; lia.
Qed.

Lemma omap_fixed {A} (f : A -> option A) l :
  omap f l = l <-> forall x, In x l -> f x = Some x.
Proof.
  induction l as [|x l IH]; cbn.
  - split; [intros _ y [] | reflexivity].
  - split.
    + intros H y Hy. destruct (f x) as [x' |] eqn:Hx.
      * injection H as -> Hl. destruct Hy as [<- | Hy]; [exact Hx |].
        now apply IH.
      * pose proof (length_omap f l) as Hlen. rewrite H in Hlen.
        simpl in Hlen. lia.
    + intros H. rewrite (H x) by auto. f_equal. apply IH. auto.
Qed.

Lemma filter_fixed {A} (p : A -> bool) l :
  List.filter p l = l <-> forall x, In x l -> p x = true.
Proof.
  induction l as [|x l IH]; simpl.
  - split; [intros _ y [] | reflexivity].
  - destruct (p x) eqn:Hx; split.
    + intros H y [<- | Hy]; [exact Hx |]. injection H as H. now apply IH.
    + intros H. f_equal. apply IH. auto.
    + intros H. pose proof (filter_length_le p l) as Hlen.
      rewrite H in Hlen. simpl in Hlen. lia.
    + intros H. rewrite (H x) in Hx by auto. discriminate.
Qed.

(** After one pass every top-level assignment has at least one target
    and only names as targets. *)
Lemma new_tree_targets tree ts v tc :
  In (Assign ts v tc) (mod_body (new_tree tree)) ->
  ts <> [] /\ forall t, In t ts -> is_Name t = true.
Proof.
  rewrite new_tree_spec. simpl. intros H.
  apply in_omap in H as [s [_ Hs]].
  destruct s; simpl in Hs; try discriminate.
  destruct (List.filter (is_kept_target (unused_vars tree)) targets)
    as [|t0 ts0] eqn:Hf; [discriminate |].
  injection Hs as <- <- <-. split; [discriminate |].
  intros t Ht. rewrite <- Hf in Ht. apply filter_In in Ht as [_ Ht].
  destruct t; simpl in Ht; try discriminate. reflexivity.
Qed.

Lemma rebuild_assign_fixed unused ts v tc :
  ts <> [] ->
  rebuild_stmt unused (Assign ts v tc) = Some (Assign ts v tc)
  <-> forall t, In t ts -> is_kept_target unused t = true.
Proof.
  intros Hne. rewrite <- filter_fixed. simpl.
  destruct (List.filter (is_kept_target unused) ts) as [|t0 ts0] eqn:Hf.
  - split; [discriminate | intros <-; contradiction].
  - split; [intros H; injection H as <-; reflexivity | intros <-; reflexivity].
Qed.

(** A tree whose top-level assignments have names only as targets is
    left as it is by the pass exactly when each of these names is read. *)
Lemma new_tree_fixed_wf t1 :
  (forall ts v tc, In (Assign ts v tc) (mod_body t1) ->
     ts <> [] /\ forall t, In t ts -> is_Name t = true) ->
  new_tree t1 = t1
  <-> forall x, top_level_target x t1 -> x ∈ used_vars t1.
Proof.
  intros Hwf. rewrite new_tree_spec.
  assert (Hfix : mk_Module (omap (rebuild_stmt (unused_vars t1)) (mod_body t1))
                 = t1
                 <-> forall s, In s (mod_body t1) ->
                       rebuild_stmt (unused_vars t1) s = Some s).
  { rewrite <- omap_fixed. destruct t1 as [b1]. simpl.
    split; [intros H; injection H as H; exact H | intros ->; reflexivity]. }
  rewrite Hfix. split.
  - intros H x (ts & v & tc & c & Hs & Hx).
    specialize (H _ Hs). destruct (Hwf _ _ _ Hs) as [Hne _].
    rewrite (rebuild_assign_fixed _ _ _ _ Hne) in H.
    specialize (H _ Hx). simpl in H. apply bool_decide_eq_true_1 in H.
    rewrite (top_level_target_unused t1 _ _ _ _ _ Hs Hx) in H.
    destruct (decide (x ∈ used_vars t1)); tauto.
  - intros H s Hs.
    destruct s as [ts v tc| | | | | | |]; try reflexivity.
    destruct (Hwf _ _ _ Hs) as [Hne Hnames].
    apply rebuild_assign_fixed; [exact Hne |].
    intros t Ht. specialize (Hnames _ Ht).
    destruct t as [x c| | | | |]; try discriminate. simpl.
    apply bool_decide_eq_true_2.
    rewrite (top_level_target_unused t1 _ _ _ _ _ Hs Ht).
    intros Hn. apply Hn. apply H. unfold top_level_target. eauto 10.
Qed.

(** A pruned tree is left as it is by a second pass exactly when every
    name that is still a top-level assignment target is still read. *)
Lemma new_tree_fixed_iff tree :
  new_tree (new_tree tree) = new_tree tree
  <-> forall x, top_level_target x (new_tree tree) ->
        x ∈ used_vars (new_tree tree).
Proof.
  apply new_tree_fixed_wf. intros ts v tc H.
  exact (new_tree_targets _ _ _ _ H).
Qed.

Lemma prune_twice_parsed rt src tree text w :
  ast_parse rt src = Return tree ->
  unparse rt (new_tree tree) = Return text ->
  prune_twice rt src w = remove_unused_variables rt text w.
Proof.
  intros Hp Hu. unfold prune_twice.
  now rewrite (bind_Return _ _ _ _ _
                 (remove_unused_rendered rt src tree text w Hp Hu)).
Qed.

(** A top-level target after the pass is a top-level target before it
    whose name is in [used_vars]. *)
Lemma top_level_target_new_tree tree x :
  top_level_target x (new_tree tree)
  <-> top_level_target x tree /\ x ∈ used_vars tree.
Proof.
  unfold top_level_target. rewrite new_tree_spec. simpl. split.
  - intros (ts' & v & tc & c & Hs & Hx).
    apply in_omap in Hs as [s [Hs Hr]].
    destruct s as [ts v0 tc0| | | | | | |]; simpl in Hr;
      try (injection Hr as Hr; discriminate Hr).
    destruct (List.filter (is_kept_target (unused_vars tree)) ts)
      as [|t0 ts0] eqn:Hf; [discriminate |].
    injection Hr as <- <- <-. rewrite <- Hf in Hx.
    apply filter_In in Hx as [Hx Hk].
    split; [eauto 10 |]. simpl in Hk. apply bool_decide_eq_true_1 in Hk.
    rewrite (top_level_target_unused _ _ _ _ _ _ Hs Hx) in Hk.
    destruct (decide (x ∈ used_vars tree)); tauto.
  - intros [(ts & v & tc & c & Hs & Hx) Hu].
    assert (Hk : In (Name x c)
                   (List.filter (is_kept_target (unused_vars tree)) ts)).
    { apply filter_In. split; [exact Hx |]. simpl.
      apply bool_decide_eq_true_2.
      rewrite (top_level_target_unused _ _ _ _ _ _ Hs Hx). tauto. }
    exists (List.filter (is_kept_target (unused_vars tree)) ts), v, tc, c.
    split; [| exact Hk]. apply in_omap. exists (Assign ts v tc).
    split; [exact Hs |]. simpl.
    destruct (List.filter (is_kept_target (unused_vars tree)) ts);
      [destruct Hk | reflexivity].
Qed.

(** C4, counterexample. The cell [y = 5] followed by [x = y]: the first
    pass removes [x = y], after which [y] is no longer read, so the second
    pass removes [y = 5] too; the two texts differ by more than white
    space. *)
Lemma pruning_not_idempotent :
  fst (remove_unused_variables (sample_rt black_ok) src_chain w0)
  = Return (NL +:+ "y = 5" +:+ NL)
  /\ fst (prune_twice (sample_rt black_ok) src_chain w0) = Return NL
  /\ ~ same_modulo_whitespace NL (NL +:+ "y = 5" +:+ NL)
  /\ new_tree (new_tree tree_chain) <> new_tree tree_chain.
Proof.
  split; [vm_compute; reflexivity |].
  split; [vm_compute; reflexivity |].
  split; [vm_compute; discriminate |].
  vm_compute. discriminate.
Qed.

(** C4, as amended. For a cell that parses, whose pruned tree is
    rendered and whose rendering parses back to the pruned tree: the
    second pass leaves the pruned tree as it is exactly when every name
    that is still a top-level assignment target after the first pass is
    still read somewhere in the pruned tree; in that case pruning the
    returned text returns the same text; and a name that the second pass
    removes as a target was read in the cell but is read nowhere in the
    pruned tree. *)
Theorem pruning_idempotent_when_targets_still_read rt src tree text w :
  ast_parse rt src = Return tree ->
  unparse rt (new_tree tree) = Return text ->
  ast_parse rt text = Return (new_tree tree) ->
  (new_tree (new_tree tree) = new_tree tree
   <-> forall x, top_level_target x (new_tree tree) ->
         reads (new_tree tree) x)
  /\ ((forall x, top_level_target x (new_tree tree) ->
         reads (new_tree tree) x) ->
      remove_unused_variables rt src w = (Return text, w)
      /\ prune_twice rt src w = (Return text, w))
  /\ (forall x, top_level_target x (new_tree tree) ->
        ~ top_level_target x (new_tree (new_tree tree)) ->
        reads tree x /\ ~ reads (new_tree tree) x).
Proof.
  intros Hp Hu Hrt.
  assert (Hiff : new_tree (new_tree tree) = new_tree tree
                 <-> forall x, top_level_target x (new_tree tree) ->
                       reads (new_tree tree) x).
  { rewrite new_tree_fixed_iff. split; intros H x Hx.
    - apply used_vars_reads. now apply H.
    - apply used_vars_reads. now apply H. }
  split; [exact Hiff |]. split.
  - intros H. apply Hiff in H.
    split; [exact (remove_unused_rendered _ _ _ _ w Hp Hu) |].
    rewrite (prune_twice_parsed _ _ _ _ w Hp Hu).
    apply (remove_unused_rendered _ _ _ _ w Hrt). now rewrite H.
  - intros x H1 H2. split.
    + apply used_vars_reads. now apply top_level_target_new_tree in H1.
    + intros Hr. apply H2. apply top_level_target_new_tree.
      split; [exact H1 | now apply used_vars_reads].
Qed.

Lemma pruning_idempotent_when_targets_still_read_witness :
  ast_parse (sample_rt black_ok) src_used = Return tree_used
  /\ unparse (sample_rt black_ok) (new_tree tree_used)
     = Return src_used_rendered
  /\ ast_parse (sample_rt black_ok) src_used_rendered
     = Return (new_tree tree_used)
  /\ top_level_target "x" (new_tree tree_used)
  /\ reads (new_tree tree_used) "x"
  /\ prune_twice (sample_rt black_ok) src_used w0
     = (Return src_used_rendered, w0).
Proof.
  assert (Hn : new_tree tree_used = tree_used) by (vm_compute; reflexivity).
  assert (H1 : ast_parse (sample_rt black_ok) src_used = Return tree_used)
    by reflexivity.
  assert (H2 : unparse (sample_rt black_ok) (new_tree tree_used)
               = Return src_used_rendered)
    by (vm_compute; reflexivity).
  assert (H3 : ast_parse (sample_rt black_ok) src_used_rendered
               = Return (new_tree tree_used))
    by (vm_compute; reflexivity).
  assert (Hr : reads (new_tree tree_used) "x").
  { rewrite Hn.
    exists (call_print (Name "x" Load)),
           (Call (Name "print" Load) [Name "x" Load]).
    split; [apply occurs_here; right; left; reflexivity |].
    split; [left; reflexivity |].
    eapply sub_child; [right; left; reflexivity | apply sub_refl]. }
  assert (Ht : top_level_target "x" (new_tree tree_used)).
  { rewrite Hn. exists [Name "x" Store], (Constant "5"), None, Store.
    split; left; reflexivity. }
  split; [exact H1 |]. split; [exact H2 |]. split; [exact H3 |].
  split; [exact Ht |]. split; [exact Hr |].
  destruct (pruning_idempotent_when_targets_still_read (sample_rt black_ok)
              src_used tree_used src_used_rendered w0 H1 H2 H3)
    as (_ & H & _).
  apply H. intros x (ts & v & tc & c & Hs & Hx). rewrite Hn in Hs.
  destruct Hs as [Hs | [Hs | []]]; [| discriminate Hs].
  injection Hs as <- _ _. destruct Hx as [Hx | []].
  injection Hx as <- _. exact Hr.
Defined.

(** ** Parse failures *)

Lemma add_log_nil w : add_log w [] = w.
Proof. destruct w. unfold add_log. simpl. now rewrite app_nil_r. Qed.

Lemma add_log_app w l1 l2 : add_log (add_log w l1) l2 = add_log w (l1 ++ l2).
Proof. unfold add_log. simpl. now rewrite app_assoc. Qed.

Lemma remove_unused_syntax_error rt src e w :
  ast_parse rt src = Raise e -> isinstance_SyntaxError e = true ->
  remove_unused_variables rt src w = (Return src, add_log w [syntax_warning e]).
Proof.
  intros Hp He. unfold remove_unused_variables.
  rewrite (try_Raise _ _ w e w).
  - rewrite He. reflexivity.
  - unfold bind, lift. now rewrite Hp.
Qed.

Lemma remove_unused_other_error rt src e w :
  ast_parse rt src = Raise e -> isinstance_SyntaxError e = false ->
  remove_unused_variables rt src w = (Raise e, w).
Proof.
  intros Hp He. unfold remove_unused_variables.
  rewrite (try_Raise _ _ w e w).
  - rewrite He. reflexivity.
  - unfold bind, lift. now rewrite Hp.
Qed.

(** The pruning pass writes no file; it can only add to the log. *)
Lemma remove_unused_world rt src w :
  exists r lg, remove_unused_variables rt src w = (r, add_log w lg).
Proof.
  destruct (ast_parse rt src) as [tree | e] eqn:Hp.
  - rewrite (remove_unused_parsed _ _ _ w Hp). unfold rendered_outcome.
    destruct (unparse rt (new_tree tree)) as [text | e].
    + exists (Return text), []. now rewrite add_log_nil.
    + destruct (isinstance_SyntaxError e).
      * exists (Return src), [syntax_warning e]. reflexivity.
      * exists (Raise e), []. now rewrite add_log_nil.
  - destruct (isinstance_SyntaxError e) eqn:He.
    + exists (Return src), [syntax_warning e].
      now apply remove_unused_syntax_error.
    + exists (Raise e), []. rewrite add_log_nil.
      now apply remove_unused_other_error.
Qed.

Lemma cell_step_world rt ru acc c w :
  exists r lg, cell_step rt ru acc c w = (r, add_log w lg).
Proof.
  unfold cell_step. destruct (String.eqb (cell_type c) "code").
  - destruct ru.
    + destruct (remove_unused_world rt (source c) w) as (r & lg & H).
      unfold bind. rewrite H. destruct r; unfold ret; eauto.
    + exists (Return (acc +:+ (source c +:+ NL +:+ NL))), [].
      now rewrite add_log_nil.
  - destruct (String.eqb (cell_type c) "markdown");
      eexists _, []; rewrite add_log_nil; reflexivity.
Qed.

Lemma cells_loop_world rt ru cs : forall acc w,
  exists r lg, foldM (cell_step rt ru) acc cs w = (r, add_log w lg).
Proof.
  induction cs as [|c cs IH]; intros acc w; simpl.
  - exists (Return acc), []. now rewrite add_log_nil.
  - destruct (cell_step_world rt ru acc c w) as (r & lg & H).
    unfold bind. rewrite H. destruct r as [a | e].
    + destruct (IH a (add_log w lg)) as (r' & lg' & H').
      rewrite H', add_log_app. eauto.
    + eauto.
Qed.


Lemma cell_step_other_error rt acc src e w :
  ast_parse rt src = Raise e -> isinstance_SyntaxError e = false ->
  cell_step rt true acc (mk_cell "code" src) w = (Raise e, w).
Proof.
  intros Hp He. unfold cell_step. simpl.
  now rewrite (bind_Raise _ _ _ _ _ (remove_unused_other_error _ _ _ w Hp He)).
Qed.



Lemma cells_loop_raises rt src e cs :
  ast_parse rt src = Raise e -> isinstance_SyntaxError e = false ->
  In (mk_cell "code" src) cs ->
  forall acc w,
    exists e' lg,
      foldM (cell_step rt true) acc cs w = (Raise e', add_log w lg).
Proof.
  intros Hp He. induction cs as [|c cs IH]; intros Hin acc w; [destruct Hin |].
  simpl. destruct Hin as [-> | Hin].
  - rewrite (bind_Raise _ _ _ _ _ (cell_step_other_error _ acc _ _ w Hp He)).
    exists e, []. now rewrite add_log_nil.
  - destruct (cell_step_world rt true acc c w) as (r & lg & H).
    unfold bind. rewrite H. destruct r as [a | e1]; [| eauto].
    destruct (IH Hin a (add_log w lg)) as (e' & lg' & H').
    rewrite H', add_log_app. eauto.
Qed.

(** An exception in the loop over the cells ends the run in the handlers
    of [convert_ipynb_to_py]: an error is logged, no file is written. *)
Lemma convert_aborts rt ipynb_path py_path ru ub text nb w e lg :
  files w !! ipynb_path = Some text ->
  nbformat_read rt text = Return nb ->
  assemble rt ru nb w = (Raise e, add_log w lg) ->
  convert_ipynb_to_py rt ipynb_path py_path ru ub w
  = (Return tt, add_log w (lg ++ [(ERROR, abort_msg ipynb_path e)])).
Proof.
  intros Hf Hnb Ha. unfold convert_ipynb_to_py.
  rewrite (try_Raise _ _ w e (add_log w lg)).
  - unfold abort_msg. rewrite <- add_log_app.
    destruct (isinstance_FileNotFoundError e); reflexivity.
  - unfold bind at 1. unfold open_read. rewrite Hf.
    unfold bind at 1. unfold lift. rewrite Hnb.
    unfold bind at 1. now rewrite Ha.
Qed.

(** C10. When parsing a cell raises an exception that is not a syntax
    error, the pruning pass raises it and leaves the world as it was;
    a conversion with pruning of a notebook that has such a code cell ends
    in the handler: it logs an error last and the files are those it
    started with, so no output file is written. *)
Theorem other_parse_error_aborts_conversion rt src e :
  ast_parse rt src = Raise e -> isinstance_SyntaxError e = false ->
  (forall w, remove_unused_variables rt src w = (Raise e, w))
  /\ (forall ipynb_path py_path use_black text nb w,
        files w !! ipynb_path = Some text ->
        nbformat_read rt text = Return nb ->
        In (mk_cell "code" src) (cells nb) ->
        exists lg msg,
          convert_ipynb_to_py rt ipynb_path py_path true use_black w
          = (Return tt, mk_world (files w) (log w ++ lg ++ [(ERROR, msg)]))).
Proof.
  intros Hp He. split.
  - intros w. now apply remove_unused_other_error.
  - intros ipynb_path py_path ub text nb w Hf Hnb Hin.
    destruct (cells_loop_raises rt src e (cells nb) Hp He Hin "" w)
      as (e' & lg & Ha).
    exists lg, (abort_msg ipynb_path e').
    now rewrite (convert_aborts _ _ py_path true ub _ _ _ _ _ Hf Hnb Ha).
Qed.

Lemma other_parse_error_aborts_conversion_witness :
  ast_parse (sample_rt black_ok) src_nul = Raise err_nul
  /\ isinstance_SyntaxError err_nul = false
  /\ remove_unused_variables (sample_rt black_ok) src_nul w0 = (Raise err_nul, w0)
  /\ exists lg msg,
       convert_ipynb_to_py (sample_rt black_ok) "nul.ipynb" "out.py" true true
         w_nb
       = (Return tt, mk_world (files w_nb) (log w_nb ++ lg ++ [(ERROR, msg)])).
Proof.
  split; [reflexivity |]. split; [reflexivity |].
  destruct (other_parse_error_aborts_conversion (sample_rt black_ok) src_nul
              err_nul eq_refl eq_refl) as [H1 H2].
  split; [apply H1 |].
  apply (H2 "nul.ipynb" "out.py" true "nul"
            (mk_notebook [mk_cell "code" src_unused; mk_cell "code" src_nul])).
  - vm_compute. reflexivity.
  - reflexivity.
  - right. left. reflexivity.
Defined.

(** ** The external formatter stage *)

Ltac run_black_stage :=
  unfold format_with_black, try_except, bind, write_temp_file,
    subprocess_run_black, open_read, os_unlink, ret, logging, add_log,
    black_handler_result; simpl.

(** The call raised: the handlers return, with the temporary file still
    there. *)
Lemma format_with_black_raised rt src w tmp e :
  mktemp rt (files w) = Return tmp ->
  run_black rt tmp (<[tmp := src]> (files w)) = Raise e ->
  format_with_black rt src w
  = (Return (fst (black_handler_result src e)),
     add_log (mk_world (<[tmp := src]> (files w)) (log w))
       [snd (black_handler_result src e)]).
Proof.
  intros Ht Hb. run_black_stage. rewrite Ht. simpl. rewrite Hb.
  destruct (isinstance_FileNotFoundError e);
    [| destruct (isinstance_CalledProcessError e)]; reflexivity.
Qed.

(** The call returned and the file is still there: it is read back and
    deleted. *)
Lemma format_with_black_ran rt src w tmp fs formatted :
  mktemp rt (files w) = Return tmp ->
  run_black rt tmp (<[tmp := src]> (files w)) = Return fs ->
  fs !! tmp = Some formatted ->
  format_with_black rt src w
  = (Return (formatted, ["Formatted using black"]),
     mk_world (delete tmp fs) (log w)).
Proof.
  intros Ht Hb Hf. run_black_stage. rewrite Ht. simpl. rewrite Hb. simpl.
  rewrite Hf. simpl. rewrite Hf. reflexivity.
Qed.

(** Whatever the runtime does, the stage returns a text and changes. *)
Lemma format_with_black_returns rt src w :
  exists r w', format_with_black rt src w = (Return r, w').
Proof.
  run_black_stage.
  destruct (mktemp rt (files w)) as [tmp | e]; simpl.
  - destruct (run_black rt tmp (<[tmp := src]> (files w))) as [fs | e]; simpl.
    + destruct (fs !! tmp) as [c |] eqn:Hc; simpl.
      * rewrite Hc. eauto.
      * eauto.
    + destruct (isinstance_FileNotFoundError e);
        [| destruct (isinstance_CalledProcessError e)]; eauto.
  - destruct (isinstance_FileNotFoundError e);
      [| destruct (isinstance_CalledProcessError e)]; eauto.
Qed.

Lemma log_lines_world (chs : list string) : forall w,
  exists lg,
    foldM (fun _ change => logging INFO ("  - " +:+ change)) tt chs w
    = (Return tt, add_log w lg).
Proof.
  induction chs as [|c chs IH]; intros w; simpl.
  - exists []. now rewrite add_log_nil.
  - unfold bind, logging at 1. fold (add_log w [(INFO, "  - " +:+ c)]).
    destruct (IH (add_log w [(INFO, "  - " +:+ c)])) as [lg H].
    rewrite H, add_log_app. eauto.
Qed.

Lemma log_changes_world header chs w :
  exists lg, log_changes header chs w = (Return tt, add_log w lg).
Proof.
  unfold log_changes. destruct (nonempty chs).
  - unfold bind, logging at 1. fold (add_log w [(INFO, header)]).
    destruct (log_lines_world chs (add_log w [(INFO, header)])) as [lg H].
    rewrite H, add_log_app. eauto.
  - exists []. now rewrite add_log_nil.
Qed.

(** Once the cells are assembled, the run goes to its end if the output
    can be opened: whatever the formatter did, the text the formatting
    stage returned is written and the success is logged. *)
Lemma convert_completes rt ipynb_path py_path ru ub text nb code w w1 :
  files w !! ipynb_path = Some text ->
  nbformat_read rt text = Return nb ->
  assemble rt ru nb w = (Return code, w1) ->
  open_w_error rt py_path = None ->
  exists r w2 lg,
    format_stage rt ub code w1 = (Return r, w2)
    /\ convert_ipynb_to_py rt ipynb_path py_path ru ub w
       = (Return tt,
          mk_world (<[py_path := fst r]> (files w2))
            (log w2 ++ lg ++ [success_msg ipynb_path py_path])).
Proof.
  intros Hf Hnb Ha Hw.
  assert (Hst : exists r w2, format_stage rt ub code w1 = (Return r, w2)).
  { unfold format_stage. destruct ub; [apply format_with_black_returns |].
    unfold ret. eauto. }
  destruct Hst as (r & w2 & Hst). exists r, w2.
  set (header := if ub
                 then "Formatting changes applied to: " +:+ ipynb_path
                      +:+ " (using black)"
                 else "Formatting changes applied to: " +:+ ipynb_path).
  destruct (log_changes_world header (snd r) w2) as [lg Hlg].
  exists lg. split; [exact Hst |].
  unfold convert_ipynb_to_py. apply try_Return.
  unfold bind at 1. unfold open_read. rewrite Hf.
  unfold bind at 1. unfold lift. rewrite Hnb.
  unfold bind at 1. rewrite Ha.
  assert (Hfc : (if ub
                 then
                   let* r0 := format_with_black rt code in
                   log_changes
                     ("Formatting changes applied to: " +:+ ipynb_path
                      +:+ " (using black)") (snd r0) >> ret r0
                 else
                   let r0 := format_code code in
                   log_changes
                     ("Formatting changes applied to: " +:+ ipynb_path)
                     (snd r0) >> ret r0) w1
                = (Return r, add_log w2 lg)).
  { unfold format_stage in Hst. subst header. destruct ub.
    - unfold bind at 1. rewrite Hst. unfold bind. rewrite Hlg. reflexivity.
    - unfold ret in Hst. injection Hst as <- <-.
      cbv zeta. unfold bind. rewrite Hlg. reflexivity. }
  cbv zeta in Hfc. rewrite (bind_Return _ _ _ _ _ Hfc).
  unfold bind, open_write, logging, success_msg, add_log. rewrite Hw. simpl.
  now rewrite <- app_assoc.
Qed.



(** C2. When the formatter call raises (binary missing, formatting error
    or any other failure), the stage returns through a handler and the
    temporary file it created is still on disk, with the text written to
    it: only the path on which the tool succeeds deletes the file. *)
Theorem temp_file_left_when_black_fails rt src w tmp e :
  mktemp rt (files w) = Return tmp ->
  run_black rt tmp (<[tmp := src]> (files w)) = Raise e ->
  files (snd (format_with_black rt src w)) !! tmp = Some src.
Proof.
  intros Ht Hb. rewrite (format_with_black_raised _ _ _ _ _ Ht Hb).
  simpl. apply lookup_insert_eq.
Qed.

Lemma temp_file_left_when_black_fails_witness :
  mktemp (sample_rt black_missing) (files w0) = Return sample_tmp
  /\ run_black (sample_rt black_missing) sample_tmp
       (<[sample_tmp := src_used]> (files w0)) = Raise err_no_black
  /\ files (snd (format_with_black (sample_rt black_missing) src_used w0))
       !! sample_tmp = Some src_used.
Proof.
  split; [reflexivity |]. split; [reflexivity |].
  apply (temp_file_left_when_black_fails (sample_rt black_missing) src_used w0
           sample_tmp err_no_black); reflexivity.
Defined.

(** C6. With the temporary file written: if the formatter call raises
    [FileNotFoundError] (binary missing) the stage returns what the
    minimal formatter returns; if it raises [CalledProcessError], or any
    other exception, the stage returns the text it was given together with
    the message, which is also logged as a warning. The stage never
    raises, and a conversion that reached it goes to its end: whatever the
    formatter did, the text the stage returned is written to the output
    when this can be opened. *)
Theorem black_failure_policy rt src w tmp e :
  mktemp rt (files w) = Return tmp ->
  run_black rt tmp (<[tmp := src]> (files w)) = Raise e ->
  (isinstance_FileNotFoundError e = true ->
   fst (format_with_black rt src w) = Return (format_code src))
  /\ (isinstance_FileNotFoundError e = false ->
      isinstance_CalledProcessError e = true ->
      fst (format_with_black rt src w)
      = Return (src, ["black formatting failed: " +:+ exn_str e])
      /\ In (WARNING, "black formatting failed: " +:+ exn_str e)
           (log (snd (format_with_black rt src w))))
  /\ (isinstance_FileNotFoundError e = false ->
      isinstance_CalledProcessError e = false ->
      fst (format_with_black rt src w)
      = Return (src, ["black formatting error: " +:+ exn_str e])
      /\ In (WARNING, "black formatting error: " +:+ exn_str e)
           (log (snd (format_with_black rt src w))))
  /\ (forall src' w', exists r w'',
        format_with_black rt src' w' = (Return r, w''))
  /\ (forall ipynb_path py_path ru text nb w_a w_b,
        files w_a !! ipynb_path = Some text ->
        nbformat_read rt text = Return nb ->
        assemble rt ru nb w_a = (Return src, w_b) ->
        files w_b = files w -> 
        open_w_error rt py_path = None ->
        exists lg,
          convert_ipynb_to_py rt ipynb_path py_path ru true w_a
          = (Return tt,
             mk_world
               (<[py_path := fst (fst (black_handler_result src e))]>
                  (<[tmp := src]> (files w)))
               (log w_b ++ lg ++ [success_msg ipynb_path py_path]))).
Proof.
  intros Ht Hb.
  pose proof (format_with_black_raised _ _ _ _ _ Ht Hb) as H.
  split; [| split; [| split; [| split]]].
  - intros He. rewrite H. unfold black_handler_result. now rewrite He.
  - intros He1 He2. rewrite H. unfold black_handler_result.
    rewrite He1, He2. simpl. split; [reflexivity |].
    apply in_app_iff. right. left. reflexivity.
  - intros He1 He2. rewrite H. unfold black_handler_result.
    rewrite He1, He2. simpl. split; [reflexivity |].
    apply in_app_iff. right. left. reflexivity.
  - intros src' w'. apply format_with_black_returns.
  - intros ipynb_path py_path ru text nb w_a w_b Hf Hnb Ha Hfs Hw.
    destruct (convert_completes _ _ _ _ true _ _ _ _ _ Hf Hnb Ha Hw)
      as (r & w2 & lg & Hst & Hc).
    unfold format_stage in Hst.
    assert (Ht' : mktemp rt (files w_b) = Return tmp) by now rewrite Hfs.
    assert (Hb' : run_black rt tmp (<[tmp := src]> (files w_b)) = Raise e)
      by now rewrite Hfs.
    rewrite (format_with_black_raised _ _ _ _ _ Ht' Hb') in Hst.
    injection Hst as <- <-. rewrite Hc. simpl. rewrite Hfs.
    exists (snd (black_handler_result src e) :: lg).
    f_equal. f_equal. rewrite <- app_assoc. reflexivity.
Qed.

Lemma black_failure_policy_witness :
  mktemp (sample_rt black_missing) (files w0) = Return sample_tmp
  /\ run_black (sample_rt black_missing) sample_tmp
       (<[sample_tmp := src_nested]> (files w0)) = Raise err_no_black
  /\ isinstance_FileNotFoundError err_no_black = true
  /\ fst (format_with_black (sample_rt black_missing) src_nested w0)
     = Return (format_code src_nested)
  /\ fst (format_with_black (sample_rt black_fails) src_nested w0)
     = Return (src_nested,
               ["black formatting failed: " +:+ exn_str err_black_failed])
  /\ fst (format_with_black (sample_rt black_breaks) src_nested w0)
     = Return (src_nested,
               ["black formatting error: " +:+ exn_str err_black_other]).
Proof.
  split; [reflexivity |]. split; [reflexivity |]. split; [reflexivity |].
  split; [| split].
  - apply (black_failure_policy (sample_rt black_missing) src_nested w0
             sample_tmp err_no_black); reflexivity.
  - apply (black_failure_policy (sample_rt black_fails) src_nested w0
             sample_tmp err_black_failed); reflexivity.
  - apply (black_failure_policy (sample_rt black_breaks) src_nested w0
             sample_tmp err_black_other); reflexivity.
Defined.

(** ** Markdown cells *)

Lemma append_assoc (a b c : string) : (a +:+ b) +:+ c = a +:+ (b +:+ c).
Proof.
  induction a as [|x a IH]; [reflexivity |].
  change (String x ((a +:+ b) +:+ c) = String x (a +:+ (b +:+ c))).
  now f_equal.
Qed.

Lemma append_empty_r (a : string) : a +:+ "" = a.
Proof.
  induction a as [|x a IH]; [reflexivity |].
  change (String x (a +:+ "") = String x a). now f_equal.
Qed.

(** Joining with "newline, hash, space" after a first "hash, space" is
    joining the prefixed lines with a newline. *)
Lemma join_prefixed lines :
  "# " +:+ join (NL +:+ "# ") lines = join NL (prefixed (lines_or_blank lines)).
Proof.
  destruct lines as [|l lines]; [reflexivity |].
  simpl lines_or_blank. revert l.
  induction lines as [|l2 lines IH]; intros l; [reflexivity |].
  change (join (NL +:+ "# ") (l :: l2 :: lines))
    with (l +:+ (NL +:+ "# ") +:+ join (NL +:+ "# ") (l2 :: lines)).
  change (join NL (prefixed (l :: l2 :: lines)))
    with (("# " +:+ l) +:+ NL +:+ join NL (prefixed (l2 :: lines))).
  rewrite <- IH. now rewrite !append_assoc.
Qed.

Lemma markdown_block_spec c :
  (NL +:+ "# ") +:+ join (NL +:+ "# ") (splitlines (source c)) +:+ (NL +:+ NL)
  = markdown_block c.
Proof.
  unfold markdown_block. rewrite <- join_prefixed. now rewrite !append_assoc.
Qed.

Lemma cell_step_markdown rt ru acc c w :
  is_markdown c ->
  cell_step rt ru acc c w = (Return (acc +:+ markdown_block c), w).
Proof.
  unfold is_markdown, cell_step. intros ->.
  change (String.eqb "markdown" "code") with false.
  change (String.eqb "markdown" "markdown") with true.
  cbv iota zeta. now rewrite markdown_block_spec.
Qed.

Lemma cells_loop_markdown rt ru cs :
  Forall is_markdown cs ->
  forall acc w,
    foldM (cell_step rt ru) acc cs w
    = (Return (acc +:+ concat_str (map markdown_block cs)), w).
Proof.
  induction 1 as [|c cs Hc _ IH]; intros acc w; simpl.
  - now rewrite append_empty_r.
  - rewrite (bind_Return _ _ _ _ _ (cell_step_markdown rt ru acc c w Hc)).
    rewrite IH. now rewrite append_assoc.
Qed.

(** C7, counterexample. One markdown cell holding [hello]: the text
    assembled starts with a newline, which the lines prefixed and followed
    by two newlines do not. *)
Lemma markdown_text_has_leading_newline :
  fst (assemble (sample_rt black_ok) true
         (mk_notebook [mk_cell "markdown" "hello"]) w0)
  = Return (NL +:+ "# hello" +:+ NL +:+ NL)
  /\ spec_markdown_text (mk_notebook [mk_cell "markdown" "hello"])
     = "# hello" +:+ NL +:+ NL
  /\ fst (assemble (sample_rt black_ok) true
            (mk_notebook [mk_cell "markdown" "hello"]) w0)
     <> Return (spec_markdown_text (mk_notebook [mk_cell "markdown" "hello"])).
Proof.
  split; [vm_compute; reflexivity |].
  split; [vm_compute; reflexivity |].
  vm_compute. discriminate.
Qed.

(** C7, as amended. For a notebook of markdown cells only, whatever the
    pruning flag and the runtime, the text assembled is, cell after cell,
    a newline, the lines of the cell each prefixed with "# " and joined
    with newlines (one empty comment line for a cell without lines), and
    two newlines; nothing is logged and no file is touched. The
    formatting flag is not read before the text is assembled. *)
Theorem markdown_only_text rt remove_unused nb w :
  Forall is_markdown (cells nb) ->
  assemble rt remove_unused nb w
  = (Return (concat_str (map markdown_block (cells nb))), w).
Proof.
  intros H. unfold assemble.
  now rewrite (cells_loop_markdown rt remove_unused _ H "" w).
Qed.

Lemma markdown_only_text_witness :
  Forall is_markdown [mk_cell "markdown" "hello"; mk_cell "markdown" ""]
  /\ assemble (sample_rt black_ok) false
       (mk_notebook [mk_cell "markdown" "hello"; mk_cell "markdown" ""]) w0
     = (Return (NL +:+ "# hello" +:+ NL +:+ NL +:+ NL +:+ "# " +:+ NL +:+ NL),
        w0).
Proof.
  assert (H : Forall is_markdown
                [mk_cell "markdown" "hello"; mk_cell "markdown" ""])
    by (repeat constructor).
  split; [exact H |].
  exact (markdown_only_text (sample_rt black_ok) false
           (mk_notebook [mk_cell "markdown" "hello"; mk_cell "markdown" ""])
           w0 H).
Defined.

(** ** The minimal formatter *)

(** The loop against the line-by-line function. Whenever the flag says
    the line before is not blank, a line has been emitted: the second test
    of the condition at line 145 never decides. *)
Lemma format_fold lines : forall i st,
  (prev_line_empty st = false -> formatted_lines st <> []) ->
  let st' := fold_left format_step (combine (seq i (length lines)) lines) st in
  formatted_lines st'
  = formatted_lines st ++ fmt_ref (prev_line_empty st) lines
  /\ changes st' = changes st ++ changes_ref (prev_line_empty st) i lines.
Proof.
  induction lines as [|line rest IH]; intros i st Hinv; simpl.
  - now rewrite !app_nil_r.
  - destruct (is_def_line line) eqn:Hd.
    + destruct (prev_line_empty st) eqn:Hp; simpl.
      * edestruct (IH (S i)) as [H1 H2]; [| rewrite H1, H2]; simpl;
          [discriminate |].
        rewrite <- !app_assoc. simpl. auto.
      * assert (Hne : nonempty (formatted_lines st) = true)
          by (destruct (formatted_lines st); [now destruct Hinv | reflexivity]).
        rewrite Hne. simpl.
        edestruct (IH (S i)) as [H1 H2]; [| rewrite H1, H2]; simpl;
          [discriminate |].
        rewrite <- !app_assoc. simpl. auto.
    + edestruct (IH (S i)) as [H1 H2]; [| rewrite H1, H2]; simpl.
      * intros _. now destruct (formatted_lines st).
      * rewrite <- !app_assoc. simpl. auto.
Qed.

Lemma format_lines_ref lines :
  formatted_lines (format_lines lines) = fmt_ref true lines
  /\ changes (format_lines lines) = changes_ref true 0 lines.
Proof.
  unfold format_lines, enumerate.
  destruct (format_fold lines 0 (mk_fmt [] [] true)) as [H1 H2];
    [discriminate |].
  simpl in *. auto.
Qed.

Lemma prefix_head a p c line :
  String.prefix (String a p) (String c line) = true -> c = a.
Proof.
  intros H. cbn [String.prefix] in H.
  destruct (ascii_dec a c); [congruence | discriminate].
Qed.

Lemma def_line_not_blank line :
  is_def_line line = true ->
  strip_is_empty line = false /\ not_empty_line line = true.
Proof.
  unfold is_def_line, startswith. intros H.
  destruct line as [|c line]; [discriminate |].
  split; [| reflexivity].
  apply orb_prop in H as [H | H]; apply prefix_head in H; subst c;
    reflexivity.
Qed.

Lemma fmt_ref_well_spaced lines : forall p, well_spaced p (fmt_ref p lines).
Proof.
  induction lines as [|line rest IH]; intros p; simpl; [exact I |].
  destruct (is_def_line line) eqn:Hd.
  - destruct (def_line_not_blank _ Hd) as [Hb _].
    destruct p; simpl; rewrite Hd.
    + split; [auto |]. split; [discriminate | apply IH].
    + split; [discriminate |]. split; [auto |].
      split; [discriminate | apply IH].
  - simpl. rewrite Hd. split; [discriminate | apply IH].
Qed.

Lemma well_spaced_lookup out : forall p k line,
  well_spaced p out -> out !! k = Some line -> is_def_line line = true ->
  out !! (S k) = Some ""
  /\ match k with
     | O => p = true
     | S k' => exists q, out !! k' = Some q /\ strip_is_empty q = true
     end.
Proof.
  induction out as [|l out IH]; intros p k line Hw Hk Hd; [discriminate |].
  destruct Hw as [Hl Hw]. destruct k as [|k]; simpl in Hk.
  - injection Hk as ->. destruct (Hl Hd) as [Hp Hh]. split; [| exact Hp].
    simpl. destruct out; [discriminate | simpl in *; congruence].
  - destruct (IH _ _ _ Hw Hk Hd) as [H1 H2]. split; [exact H1 |].
    destruct k as [|k]; [| exact H2]. exists l. auto.
Qed.

Lemma fmt_ref_filter lines : forall p,
  List.filter not_empty_line (fmt_ref p lines)
  = List.filter not_empty_line lines.
Proof.
  induction lines as [|line rest IH]; intros p; simpl; [reflexivity |].
  destruct (is_def_line line) eqn:Hd.
  - destruct (def_line_not_blank _ Hd) as [_ Hn].
    destruct p; simpl; rewrite Hn, IH; reflexivity.
  - simpl. now rewrite IH.
Qed.

Lemma fmt_ref_length lines : forall p i,
  length (fmt_ref p lines)
  = length lines + length (List.filter is_def_line lines)
    + length (changes_ref p i lines).
Proof.
  induction lines as [|line rest IH]; intros p i; simpl; [reflexivity |].
  destruct (is_def_line line) eqn:Hd.
  - destruct p; simpl; rewrite (IH true (S i)); lia.
  - simpl. rewrite (IH (strip_is_empty line) (S i)). lia.
Qed.

(** The changes, from the input: one for every definition line that
    follows a line which is neither blank nor a definition line. *)
Lemma changes_ref_spec lines : forall p i msg,
  In msg (changes_ref p i lines)
  <-> exists j line,
        lines !! j = Some line /\ is_def_line line = true
        /\ msg = change_msg (i + j)
        /\ match j with
           | O => p = false
           | S j' => exists q, lines !! j' = Some q
                     /\ is_def_line q = false /\ strip_is_empty q = false
           end.
Proof.
  induction lines as [|l rest IH]; intros p i msg; simpl.
  - split; [intros [] | intros (j & line & H & _); discriminate].
  - destruct (is_def_line l) eqn:Hd.
    + rewrite in_app_iff, (IH true (S i)). split.
      * intros [H | (j & line & Hj & Hl & Hm & Hc)].
        -- destruct p; [destruct H |]. destruct H as [<- | []].
           exists 0, l. rewrite Nat.add_0_r. auto.
        -- destruct j as [|j]; [discriminate |].
           exists (S (S j)), line. simpl.
           replace (i + S (S j)) with (S i + S j) by lia. auto.
      * intros (j & line & Hj & Hl & Hm & Hc). destruct j as [|j].
        -- left. subst p. rewrite Nat.add_0_r in Hm. left. auto.
        -- right. destruct j as [|j].
           ++ destruct Hc as (q & Hq & Hq1 & _). simpl in Hq.
              injection Hq as <-. congruence.
           ++ exists (S j), line. simpl in Hj.
              replace (S i + S j) with (i + S (S j)) by lia. auto.
    + rewrite (IH (strip_is_empty l) (S i)). split.
      * intros (j & line & Hj & Hl & Hm & Hc).
        exists (S j), line. simpl.
        replace (i + S j) with (S i + j) by lia.
        repeat split; auto. destruct j as [|j]; [| exact Hc].
        exists l. auto.
      * intros (j & line & Hj & Hl & Hm & Hc). destruct j as [|j].
        -- simpl in Hj. injection Hj as ->. congruence.
        -- exists j, line. simpl in Hj.
           replace (S i + j) with (i + S j) by lia.
           repeat split; auto. destruct j as [|j]; [| exact Hc].
           destruct Hc as (q & Hq & _ & Hq2). simpl in Hq.
           injection Hq as <-. exact Hq2.
Qed.

Lemma fmt_ref_sublist lines : forall p, sublist lines (fmt_ref p lines).
Proof.
  induction lines as [|line rest IH]; intros p; simpl; [constructor |].
  destruct (is_def_line line).
  - destruct p; simpl; repeat constructor; apply IH.
  - constructor. apply IH.
Qed.

(** C8, counterexample. For the lines [x = 1], [def f():], an empty line
    and [y = 2], two blank lines follow the definition line in the output,
    and two blank lines were inserted for one change recorded; for the
    single line [def f():] no blank line comes before it. *)
Lemma minimal_formatter_not_as_specified :
  formatted_lines (format_lines ["x = 1"; "def f():"; ""; "y = 2"])
  = ["x = 1"; ""; "def f():"; ""; ""; "y = 2"]
  /\ changes (format_lines ["x = 1"; "def f():"; ""; "y = 2"])
     = ["Added newline before function/class definition at line 2"]
  /\ ~ spec_one_blank_around
         (formatted_lines (format_lines ["x = 1"; "def f():"; ""; "y = 2"]))
  /\ ~ spec_inserted_recorded ["x = 1"; "def f():"; ""; "y = 2"]
         (formatted_lines (format_lines ["x = 1"; "def f():"; ""; "y = 2"]))
         (changes (format_lines ["x = 1"; "def f():"; ""; "y = 2"]))
  /\ format_code "def f():" = ("def f():" +:+ NL, [])
  /\ ~ spec_one_blank_around (formatted_lines (format_lines ["def f():"])).
Proof.
  split; [vm_compute; reflexivity |].
  split; [vm_compute; reflexivity |].
  split; [| split; [| split; [vm_compute; reflexivity |]]].
  - intros H. destruct (H 2 "def f():" eq_refl eq_refl) as (_ & _ & H3).
    apply H3. reflexivity.
  - unfold spec_inserted_recorded. vm_compute. discriminate.
  - intros H. destruct (H 0 "def f():" eq_refl eq_refl) as ((k & Hk & _) & _).
    discriminate Hk.
Qed.

(** C8, as amended. The text returned is the output lines joined with
    newlines. Every definition line of the output is followed by the empty
    line, and is the first line or follows a line that is blank once
    stripped. The input lines are all in the output, in order, and the
    lines added are empty: one after each definition line, which is not
    recorded, and one for each change. The changes are those of the
    definition lines that follow a line neither blank nor a definition
    line, each with the 1-based number of the definition line. *)
Theorem format_code_blank_lines source_code :
  let lines := splitlines source_code in
  let out := formatted_lines (format_lines lines) in
  let chs := changes (format_lines lines) in
  format_code source_code = (join NL out, chs)
  /\ (forall k line,
        out !! k = Some line -> is_def_line line = true ->
        out !! (S k) = Some ""
        /\ (k = 0 \/ exists q, out !! (k - 1) = Some q
                              /\ strip_is_empty q = true))
  /\ sublist lines out
  /\ List.filter not_empty_line out = List.filter not_empty_line lines
  /\ length out
     = length lines + length (List.filter is_def_line lines) + length chs
  /\ (forall msg,
        In msg chs
        <-> exists j line q,
              lines !! (S j) = Some line /\ is_def_line line = true
              /\ lines !! j = Some q /\ is_def_line q = false
              /\ strip_is_empty q = false
              /\ msg = "Added newline before function/class definition at line "
                       +:+ str_of_nat (S j + 1)).
Proof.
  intros lines out chs. subst out chs.
  destruct (format_lines_ref lines) as [-> ->].
  split; [| split; [| split; [| split; [| split]]]].
  - unfold format_code. fold lines.
    destruct (format_lines_ref lines) as [-> ->]. reflexivity.
  - intros k line Hk Hd.
    destruct (well_spaced_lookup _ true k line (fmt_ref_well_spaced lines true)
                Hk Hd) as [H1 H2].
    split; [exact H1 |]. destruct k as [|k]; [auto |]. right.
    simpl. now rewrite Nat.sub_0_r.
  - apply fmt_ref_sublist.
  - apply fmt_ref_filter.
  - apply fmt_ref_length.
  - intros msg. rewrite changes_ref_spec. split.
    + intros (j & line & Hj & Hd & Hm & Hc). destruct j as [|j];
        [discriminate |].
      destruct Hc as (q & Hq & Hq1 & Hq2). exists j, line, q.
      simpl in Hm. unfold change_msg in Hm. auto 10.
    + intros (j & line & q & Hj & Hd & Hq & Hq1 & Hq2 & Hm).
      exists (S j), line. unfold change_msg. simpl. eauto 10.
Qed.

(** ** Whole runs on the sample runtime *)

(** A notebook whose first code cell is a line magic: the cell goes
    through as it is, the run ends well and the output is written. *)
Example convert_notebook_with_magic :
  let r := convert_ipynb_to_py (sample_rt black_fails) "magic.ipynb" "out.py"
             true true w_nb in
  fst r = Return tt
  /\ files (snd r) !! "out.py"
     = Some (src_magic +:+ NL +:+ NL +:+ NL +:+ src_used +:+ NL +:+ NL +:+ NL)
  /\ last (log (snd r))
     = Some (INFO, "Successfully converted magic.ipynb to out.py").
Proof. vm_compute. auto. Qed.

(** A missing input: an error is logged and no file is written. *)
Example convert_missing_input :
  convert_ipynb_to_py (sample_rt black_ok) "none.ipynb" "out.py" true true w_nb
  = (Return tt, mk_world (files w_nb) [(ERROR, "File not found: none.ipynb")]).
Proof. vm_compute. reflexivity. Qed.

(** A markdown cell and a code cell, without the external formatter. *)
Example convert_sample_notebook :
  files (snd (convert_ipynb_to_py (sample_rt black_missing) "nb.ipynb" "out.py"
                true false w_nb)) !! "out.py"
  = Some (NL +:+ "# hello" +:+ NL +:+ NL +:+ NL +:+ "print(1)" +:+ NL +:+ NL).
Proof. vm_compute. reflexivity. Qed.

(** * Further properties of the pruning pass *)

Lemma rebuild_some unused s s' :
  rebuild_stmt unused s = Some s' ->
  (s' = s /\ is_Assign s = false)
  \/ exists ts v tc,
       s = Assign ts v tc
       /\ s' = Assign (List.filter (is_kept_target unused) ts) v tc
       /\ List.filter (is_kept_target unused) ts <> [].
Proof.
  destruct s as [ts v tc| | | | | | |]; simpl; intros H;
    try (injection H as <-; left; split; reflexivity).
  right. exists ts, v, tc.
  destruct (List.filter (is_kept_target unused) ts) eqn:Hf; [discriminate |].
  injection H as <-. repeat split. discriminate.
Qed.

Lemma rebuild_none unused s :
  rebuild_stmt unused s = None ->
  exists ts v tc,
    s = Assign ts v tc /\ List.filter (is_kept_target unused) ts = [].
Proof.
  destruct s as [ts v tc| | | | | | |]; simpl; intros H; try discriminate.
  exists ts, v, tc.
  destruct (List.filter (is_kept_target unused) ts); [auto | discriminate].
Qed.




(** After the pass, the names that are targets of top-level assignments
    are those that were such targets before and are read somewhere in the
    cell, at any depth: no read name loses its assignment, no unread name
    keeps one. *)
Theorem pruned_targets_are_the_read_ones tree x :
  top_level_target x (new_tree tree)
  <-> top_level_target x tree /\ reads tree x.
Proof.
  rewrite top_level_target_new_tree, used_vars_reads. reflexivity.
Qed.

Lemma pruned_targets_are_the_read_ones_witness :
  top_level_target "x" tree_used /\ reads tree_used "x"
  /\ top_level_target "x" (new_tree tree_used)
  /\ top_level_target "x" tree_unused
  /\ ~ top_level_target "x" (new_tree tree_unused).
Proof.
  assert (Ht : top_level_target "x" tree_used).
  { exists [Name "x" Store], (Constant "5"), None, Store.
    split; left; reflexivity. }
  assert (Hr : reads tree_used "x").
  { exists (call_print (Name "x" Load)),
           (Call (Name "print" Load) [Name "x" Load]).
    split; [apply occurs_here; right; left; reflexivity |].
    split; [left; reflexivity |].
    eapply sub_child; [right; left; reflexivity | apply sub_refl]. }
  split; [exact Ht |]. split; [exact Hr |].
  split; [apply (proj2 (pruned_targets_are_the_read_ones tree_used "x"));
          auto |].
  split.
  - exists [Name "x" Store], (Constant "5"), None, Store.
    split; left; reflexivity.
  - intros (ts & v & tc & c & Hs & _). vm_compute in Hs.
    destruct Hs as [Hs | []]. discriminate Hs.
Defined.

(** What the walk of a rebuilt statement yields, the statement itself
    apart, the walk of the statement it was rebuilt from yields too. *)
Lemma rebuilt_walk unused s s' n :
  rebuild_stmt unused s = Some s' ->
  In n (walk_stmt s') -> n = NStmt s' \/ In n (walk_stmt s).
Proof.
  intros Hr Hn.
  apply rebuild_some in Hr as [[-> _] | (ts & v & tc & -> & -> & _)];
    [auto |].
  simpl in Hn. destruct Hn as [<- | Hn]; [auto |]. right. simpl. right.
  apply in_app_iff in Hn as [Hn | Hn]; apply in_app_iff; [left | auto].
  apply in_flat_map in Hn as [t [Ht Hn]]. apply filter_In in Ht as [Ht _].
  apply in_flat_map. eauto.
Qed.

Lemma rebuilt_binds unused s s' x :
  rebuild_stmt unused s = Some s' -> binds (NStmt s') x -> binds (NStmt s) x.
Proof.
  intros Hr Hb.
  apply rebuild_some in Hr as [[-> _] | (ts & v & tc & -> & -> & _)];
    [exact Hb |].
  simpl in *. destruct Hb as [c Hc]. apply filter_In in Hc as [Hc _]. eauto.
Qed.

Lemma new_tree_walk tree n :
  In n (walk (new_tree tree)) ->
  n = NModule (new_tree tree)
  \/ In n (walk tree)
  \/ exists s s', In s (mod_body tree)
                  /\ rebuild_stmt (unused_vars tree) s = Some s'
                  /\ n = NStmt s'.
Proof.
  unfold walk at 1. intros [<- | Hn]; [auto |]. right.
  rewrite new_tree_spec in Hn. simpl in Hn.
  apply in_flat_map in Hn as [s' [Hs' Hn]].
  apply in_omap in Hs' as [s [Hs Hr]].
  destruct (rebuilt_walk _ _ _ _ Hr Hn) as [-> | Hw]; [right; eauto |].
  left. right. apply in_flat_map. eauto.
Qed.

(** The pass adds no read and no binding: the names read in the pruned
    tree were read before, the names bound in it were bound before. *)
Theorem pruning_shrinks_name_sets tree :
  used_vars (new_tree tree) ⊆ used_vars tree
  /\ defined_vars (new_tree tree) ⊆ defined_vars tree.
Proof.
  split; intros x Hx.
  - apply elem_of_used_vars in Hx. apply elem_of_used_vars.
    destruct (new_tree_walk _ _ Hx) as [H | [H | (s & s' & _ & _ & H)]];
      [discriminate H | exact H | discriminate H].
  - apply elem_of_defined_vars in Hx as [n [Hn Hb]].
    apply elem_of_defined_vars.
    destruct (new_tree_walk _ _ Hn) as [-> | [H | (s & s' & Hs & Hr & ->)]].
    + destruct Hb.
    + eauto.
    + exists (NStmt s). split; [now apply top_level_in_walk |].
      exact (rebuilt_binds _ _ _ _ Hr Hb).
Qed.

(** The pass leaves a tree as it is exactly when every top-level
    assignment has targets, all of them names, each read somewhere. *)
Theorem pruning_changes_nothing_iff tree :
  new_tree tree = tree
  <-> forall ts v tc, In (Assign ts v tc) (mod_body tree) ->
        ts <> []
        /\ forall t, In t ts -> exists x c, t = Name x c /\ x ∈ used_vars tree.
Proof.
  split.
  - intros Hfix ts v tc Hs.
    assert (Hwf : forall ts v tc, In (Assign ts v tc) (mod_body tree) ->
              ts <> [] /\ forall t, In t ts -> is_Name t = true).
    { intros ts0 v0 tc0 H0. rewrite <- Hfix in H0.
      exact (new_tree_targets _ _ _ _ H0). }
    destruct (Hwf _ _ _ Hs) as [Hne Hnames]. split; [exact Hne |].
    intros t Ht. specialize (Hnames _ Ht).
    destruct t as [x c| | | | |]; try discriminate.
    exists x, c. split; [reflexivity |].
    apply (proj1 (new_tree_fixed_wf tree Hwf) Hfix). unfold top_level_target.
    eauto 10.
  - intros H. apply new_tree_fixed_wf.
    + intros ts v tc Hs. destruct (H _ _ _ Hs) as [Hne Hn].
      split; [exact Hne |]. intros t Ht.
      destruct (Hn _ Ht) as (x & c & -> & _). reflexivity.
    + intros x (ts & v & tc & c & Hs & Hx).
      destruct (H _ _ _ Hs) as [_ Hn].
      destruct (Hn _ Hx) as (x' & c' & Heq & Hu). now injection Heq as -> _.
Qed.

Lemma pruning_changes_nothing_iff_witness :
  new_tree tree_used = tree_used.
Proof.
  apply (proj2 (pruning_changes_nothing_iff tree_used)).
  intros ts v tc [H | [H | []]]; [| discriminate H].
  injection H as <- _ _. split; [discriminate |].
  intros t [<- | []]. exists "x", Store. split; [reflexivity |].
  apply (bool_decide_eq_true_1 _). vm_compute. reflexivity.
Defined.

(** ** Repeated passes *)

Lemma filter_length_fixed {A} (p : A -> bool) l :
  length (List.filter p l) = length l -> List.filter p l = l.
Proof.
  induction l as [|x l IH]; simpl; [reflexivity |].
  destruct (p x); simpl; intros H.
  - f_equal. apply IH. lia.
  - pose proof (filter_length_le p l). lia.
Qed.

Lemma rebuild_count_le unused s s' :
  rebuild_stmt unused s = Some s' -> targets_count s' <= targets_count s.
Proof.
  intros H.
  apply rebuild_some in H as [[-> _] | (ts & v & tc & -> & -> & _)];
    [lia |].
  simpl. apply filter_length_le.
Qed.

Lemma omap_count_le unused body :
  list_sum (map targets_count (omap (rebuild_stmt unused) body))
  <= list_sum (map targets_count body).
Proof.
  induction body as [|s body IH]; [simpl; lia |].
  change (omap (rebuild_stmt unused) (s :: body))
    with (match rebuild_stmt unused s with
          | Some s' => s' :: omap (rebuild_stmt unused) body
          | None => omap (rebuild_stmt unused) body
          end).
  unfold list_sum in *.
  destruct (rebuild_stmt unused s) as [s' |] eqn:Hs; cbn [map fold_right].
  - pose proof (rebuild_count_le _ _ _ Hs). lia.
  - lia.
Qed.

(** A pass that removes no target changes nothing, when every top-level
    assignment has a target. *)
Lemma omap_count_fixed unused body :
  (forall ts v tc, In (Assign ts v tc) body -> ts <> []) ->
  list_sum (map targets_count (omap (rebuild_stmt unused) body))
  = list_sum (map targets_count body) ->
  omap (rebuild_stmt unused) body = body.
Proof.
  induction body as [|s body IH]; intros Hne; [reflexivity |].
  pose proof (omap_count_le unused body) as Hle.
  assert (Hne' : forall ts v tc, In (Assign ts v tc) body -> ts <> [])
    by (intros ts v tc H; apply (Hne ts v tc); now right).
  change (omap (rebuild_stmt unused) (s :: body))
    with (match rebuild_stmt unused s with
          | Some s' => s' :: omap (rebuild_stmt unused) body
          | None => omap (rebuild_stmt unused) body
          end).
  unfold list_sum in *.
  destruct (rebuild_stmt unused s) as [s' |] eqn:Hs; cbn [map fold_right];
    intros Heq.
  - pose proof (rebuild_count_le _ _ _ Hs) as Hc.
    assert (Hs' : s' = s).
    { apply rebuild_some in Hs as [[-> _] | (ts & v & tc & -> & -> & _)];
        [reflexivity |].
      simpl in *. f_equal. apply filter_length_fixed. lia. }
    subst s'. f_equal. apply IH; [exact Hne' | lia].
  - apply rebuild_none in Hs as (ts & v & tc & -> & _).
    assert (ts <> []) by (apply (Hne ts v tc); now left).
    destruct ts; [congruence |]. simpl in Heq. lia.
Qed.

Lemma total_targets_le tree : total_targets (new_tree tree) <= total_targets tree.
Proof.
  unfold total_targets. rewrite new_tree_spec. simpl. apply omap_count_le.
Qed.

Lemma total_targets_fixed tree :
  (forall ts v tc, In (Assign ts v tc) (mod_body tree) -> ts <> []) ->
  total_targets (new_tree tree) = total_targets tree ->
  new_tree tree = tree.
Proof.
  intros Hne. unfold total_targets. rewrite new_tree_spec. simpl. intros H.
  rewrite (omap_count_fixed _ _ Hne H). now destruct tree.
Qed.

Lemma fixed_within n : forall tree,
  (forall ts v tc, In (Assign ts v tc) (mod_body tree) -> ts <> []) ->
  total_targets tree <= n ->
  exists k, k <= n
    /\ new_tree (prune_passes k tree) = prune_passes k tree.
Proof.
  induction n as [|n IH]; intros tree Hne Hn.
  - exists 0. split; [lia |]. simpl.
    apply (total_targets_fixed _ Hne). pose proof (total_targets_le tree). lia.
  - pose proof (total_targets_le tree) as Hle.
    destruct (Nat.eq_dec (total_targets (new_tree tree)) (total_targets tree))
      as [Heq | Hlt].
    + exists 0. split; [lia |]. simpl. now apply total_targets_fixed.
    + destruct (IH (new_tree tree)) as (k & Hk & Hfix).
      * intros ts v tc H. exact (proj1 (new_tree_targets _ _ _ _ H)).
      * lia.
      * exists (S k). split; [lia |]. unfold prune_passes in *.
        rewrite Nat.iter_succ_r. exact Hfix.
Qed.

Lemma prune_passes_fixed k tree :
  new_tree (prune_passes k tree) = prune_passes k tree ->
  forall m, prune_passes (k + m) tree = prune_passes k tree.
Proof.
  intros Hfix m. induction m as [|m IH].
  - now rewrite Nat.add_0_r.
  - replace (k + S m) with (S (k + m)) by lia. unfold prune_passes in *.
    simpl. now rewrite IH.
Qed.

(** Pruning again and again comes to rest: after at most one pass more
    than the cell has top-level assignment targets, the tree is one that
    the pass leaves as it is, and every later pass gives that tree. *)
Theorem pruning_comes_to_rest tree :
  exists k, k <= S (total_targets tree)
    /\ new_tree (prune_passes k tree) = prune_passes k tree
    /\ forall m, prune_passes (k + m) tree = prune_passes k tree.
Proof.
  destruct (fixed_within (total_targets tree) (new_tree tree))
    as (k & Hk & Hfix).
  - intros ts v tc H. exact (proj1 (new_tree_targets _ _ _ _ H)).
  - apply total_targets_le.
  - assert (Hfix' : new_tree (prune_passes (S k) tree) = prune_passes (S k) tree)
      by (unfold prune_passes in *; now rewrite Nat.iter_succ_r).
    exists (S k). split; [lia |]. split; [exact Hfix' |].
    now apply prune_passes_fixed.
Qed.

(** * Further properties of the assembling loop *)

Lemma cell_step_text rt ru acc c w :
  ru = false \/ recoverable rt c ->
  cell_step rt ru acc c w
  = (Return (acc +:+ cell_text rt ru c),
     add_log w (if ru then cell_warnings rt c else [])).
Proof.
  intros Hc. unfold cell_step, cell_text, cell_warnings.
  destruct (String.eqb (cell_type c) "code") eqn:Hcode.
  - destruct ru.
    + destruct Hc as [Hc | Hc]; [discriminate |].
      apply String.eqb_eq in Hcode. specialize (Hc Hcode).
      unfold pruned_text.
      destruct (ast_parse rt (source c)) as [tree | e] eqn:Hp.
      * unfold bind. rewrite (remove_unused_parsed _ _ _ w Hp).
        unfold rendered_outcome.
        destruct (unparse rt (new_tree tree)) as [text | e].
        -- unfold ret. now rewrite add_log_nil.
        -- now rewrite Hc.
      * now rewrite (bind_Return _ _ _ _ _
                       (remove_unused_syntax_error _ _ _ w Hp Hc)).
    + unfold bind, ret. now rewrite add_log_nil.
  - assert (Hnil : add_log w (if ru then [] else []) = w)
      by (destruct ru; apply add_log_nil).
    rewrite Hnil.
    destruct (String.eqb (cell_type c) "markdown").
    + cbv zeta. now rewrite markdown_block_spec.
    + unfold ret. now rewrite append_empty_r.
Qed.

Lemma cells_loop_text rt ru cs :
  Forall (fun c => ru = false \/ recoverable rt c) cs ->
  forall acc w,
    foldM (cell_step rt ru) acc cs w
    = (Return (acc +:+ concat_str (map (cell_text rt ru) cs)),
       add_log w (if ru then flat_map (cell_warnings rt) cs else [])).
Proof.
  induction 1 as [|c cs Hc _ IH]; intros acc w; simpl.
  - rewrite append_empty_r.
    replace (if ru then [] else []) with (@nil (level * string))
      by (now destruct ru).
    now rewrite add_log_nil.
  - rewrite (bind_Return _ _ _ _ _ (cell_step_text rt ru acc c w Hc)).
    rewrite IH, add_log_app, append_assoc. now destruct ru.
Qed.

(** Without pruning the loop over the cells never raises, logs nothing
    and does not depend on the runtime: the text is, cell after cell, the
    source and two newlines for a code cell, the comment block for a
    markdown cell, nothing for any other cell. *)
Theorem assemble_without_pruning rt nb w :
  assemble rt false nb w
  = (Return (concat_str (map (cell_text rt false) (cells nb))), w)
  /\ forall rt', assemble rt' false nb w = assemble rt false nb w.
Proof.
  assert (H : forall r,
            assemble r false nb w
            = (Return (concat_str (map (cell_text r false) (cells nb))), w)).
  { intros r. unfold assemble.
    rewrite (cells_loop_text r false (cells nb)).
    - now rewrite add_log_nil.
    - apply Forall_forall. auto. }
  split; [apply H |]. intros rt'. rewrite !H. reflexivity.
Qed.

(** With pruning, when every code cell is recoverable (it parses and
    its pruned tree is rendered, or the parsing or the rendering raises a
    syntax error), the text is, cell after cell, the rendering of the
    pruned tree (the source as it is after a syntax error) and two
    newlines for a code cell, the comment block for a markdown cell; one
    warning is logged for each syntax error, in the order of the cells. *)
Theorem assemble_with_pruning rt nb w :
  Forall (recoverable rt) (cells nb) ->
  assemble rt true nb w
  = (Return (concat_str (map (cell_text rt true) (cells nb))),
     mk_world (files w) (log w ++ flat_map (cell_warnings rt) (cells nb))).
Proof.
  intros H. unfold assemble. rewrite (cells_loop_text rt true (cells nb)).
  - reflexivity.
  - eapply Forall_impl; [exact H |]. auto.
Qed.

Lemma assemble_with_pruning_witness :
  Forall (recoverable (sample_rt black_ok))
    [mk_cell "code" src_magic; mk_cell "code" src_unused]
  /\ assemble (sample_rt black_ok) true
       (mk_notebook [mk_cell "code" src_magic; mk_cell "code" src_unused]) w0
     = (Return (src_magic +:+ NL +:+ NL +:+ NL +:+ "print(1)" +:+ NL +:+ NL
                +:+ NL),
        mk_world ∅ [syntax_warning err_syntax]).
Proof.
  assert (H : Forall (recoverable (sample_rt black_ok))
                [mk_cell "code" src_magic; mk_cell "code" src_unused]).
  { repeat constructor; intros _; vm_compute; auto. }
  split; [exact H |].
  exact (assemble_with_pruning (sample_rt black_ok)
           (mk_notebook [mk_cell "code" src_magic; mk_cell "code" src_unused])
           w0 H).
Defined.

Lemma cell_step_other rt ru acc c w :
  is_code_or_markdown c = false ->
  cell_step rt ru acc c w = (Return acc, w).
Proof.
  unfold is_code_or_markdown, cell_step. intros H.
  apply orb_false_elim in H as [-> ->]. reflexivity.
Qed.

Lemma cells_loop_filter rt ru cs : forall acc w,
  foldM (cell_step rt ru) acc (List.filter is_code_or_markdown cs) w
  = foldM (cell_step rt ru) acc cs w.
Proof.
  induction cs as [|c cs IH]; intros acc w; [reflexivity |].
  cbn [List.filter foldM].
  destruct (is_code_or_markdown c) eqn:Hc; cbn [foldM].
  - unfold bind. destruct (cell_step rt ru acc c w) as [[a | e] w'];
      [apply IH | reflexivity].
  - rewrite (bind_Return _ _ _ _ _ (cell_step_other rt ru acc c w Hc)).
    apply IH.
Qed.

(** Cells that are neither code nor markdown never reach the text:
    a notebook and the same notebook without them are assembled alike,
    also when the loop raises. *)
Theorem other_cells_are_ignored rt remove_unused nb w :
  assemble rt remove_unused
    (mk_notebook (List.filter is_code_or_markdown (cells nb))) w
  = assemble rt remove_unused nb w.
Proof. unfold assemble. simpl. apply cells_loop_filter. Qed.

(** * Further properties of a whole run *)

Lemma log_lines_exact (chs : list string) : forall w,
  foldM (fun _ change => logging INFO ("  - " +:+ change)) tt chs w
  = (Return tt, add_log w (map (fun ch => (INFO, "  - " +:+ ch)) chs)).
Proof.
  induction chs as [|c chs IH]; intros w; simpl.
  - now rewrite add_log_nil.
  - unfold bind, logging at 1. fold (add_log w [(INFO, "  - " +:+ c)]).
    now rewrite IH, add_log_app.
Qed.

Lemma log_changes_exact header chs w :
  log_changes header chs w = (Return tt, add_log w (change_lines header chs)).
Proof.
  unfold log_changes, change_lines. destruct (nonempty chs).
  - unfold bind, logging at 1. fold (add_log w [(INFO, header)]).
    now rewrite log_lines_exact, add_log_app.
  - unfold ret. now rewrite add_log_nil.
Qed.

Lemma convert_input_missing rt ipynb_path py_path ru ub w :
  files w !! ipynb_path = None ->
  convert_ipynb_to_py rt ipynb_path py_path ru ub w
  = (Return tt, add_log w [(ERROR, "File not found: " +:+ ipynb_path)]).
Proof.
  intros Hf. unfold convert_ipynb_to_py.
  rewrite (try_Raise _ _ w (mk_exn FileNotFoundError ipynb_path) w).
  - reflexivity.
  - unfold bind at 1. unfold open_read. now rewrite Hf.
Qed.

Lemma convert_unreadable rt ipynb_path py_path ru ub w text e :
  files w !! ipynb_path = Some text ->
  nbformat_read rt text = Raise e ->
  convert_ipynb_to_py rt ipynb_path py_path ru ub w
  = (Return tt, add_log w [(ERROR, abort_msg ipynb_path e)]).
Proof.
  intros Hf Hnb. unfold convert_ipynb_to_py.
  rewrite (try_Raise _ _ w e w).
  - unfold abort_msg. destruct (isinstance_FileNotFoundError e); reflexivity.
  - unfold bind at 1. unfold open_read. rewrite Hf.
    unfold bind at 1. unfold lift. now rewrite Hnb.
Qed.

(** The run from the assembled text on: the formatting stage, the lines
    logged for its changes, then the output written and the success
    logged, or the error of opening the output logged. *)
Lemma convert_after_assemble rt ipynb_path py_path ru ub text nb code w w1 r w2 :
  files w !! ipynb_path = Some text ->
  nbformat_read rt text = Return nb ->
  assemble rt ru nb w = (Return code, w1) ->
  format_stage rt ub code w1 = (Return r, w2) ->
  convert_ipynb_to_py rt ipynb_path py_path ru ub w
  = match open_w_error rt py_path with
    | None =>
        (Return tt,
         mk_world (<[py_path := fst r]> (files w2))
           (log w2 ++ change_lines (changes_header ub ipynb_path) (snd r)
            ++ [success_msg ipynb_path py_path]))
    | Some e =>
        (Return tt,
         add_log w2 (change_lines (changes_header ub ipynb_path) (snd r)
                     ++ [(ERROR, abort_msg ipynb_path e)]))
    end.
Proof.
  intros Hf Hnb Ha Hst.
  pose proof (log_changes_exact (changes_header ub ipynb_path) (snd r) w2)
    as Hlg.
  set (lg := change_lines (changes_header ub ipynb_path) (snd r)) in *.
  assert (Hfc : (if ub
                 then
                   let* r0 := format_with_black rt code in
                   log_changes
                     ("Formatting changes applied to: " +:+ ipynb_path
                      +:+ " (using black)") (snd r0) >> ret r0
                 else
                   log_changes
                     ("Formatting changes applied to: " +:+ ipynb_path)
                     (snd (format_code code)) >> ret (format_code code)) w1
                = (Return r, add_log w2 lg)).
  { unfold format_stage in Hst. unfold changes_header in Hlg. destruct ub.
    - unfold bind at 1. rewrite Hst. unfold bind. rewrite Hlg. reflexivity.
    - unfold ret in Hst. injection Hst as <- <-.
      unfold bind. rewrite Hlg. reflexivity. }
  assert (Hbody : forall k : string * list string -> M unit,
            (let* text0 := open_read ipynb_path in
             let* nb0 := lift (nbformat_read rt text0) in
             let* python_code := assemble rt ru nb0 in
             let* fc :=
               (if ub
                then
                  let* r0 := format_with_black rt python_code in
                  log_changes
                    ("Formatting changes applied to: " +:+ ipynb_path
                     +:+ " (using black)") (snd r0) >> ret r0
                else
                  log_changes
                    ("Formatting changes applied to: " +:+ ipynb_path)
                    (snd (format_code python_code))
                  >> ret (format_code python_code)) in
             k fc) w
            = k r (add_log w2 lg)).
  { intros k. unfold bind at 1. unfold open_read. rewrite Hf.
    unfold bind at 1. unfold lift. rewrite Hnb.
    unfold bind at 1. rewrite Ha.
    now rewrite (bind_Return _ _ _ _ _ Hfc). }
  unfold convert_ipynb_to_py, try_except. cbv zeta. rewrite Hbody.
  unfold bind, open_write, logging, success_msg, add_log.
  destruct (open_w_error rt py_path) as [e |]; simpl.
  - unfold abort_msg.
    destruct (isinstance_FileNotFoundError e); simpl;
      now rewrite <- app_assoc.
  - now rewrite <- app_assoc.
Qed.

Lemma format_stage_returns rt ub code w :
  exists r w', format_stage rt ub code w = (Return r, w').
Proof.
  unfold format_stage. destruct ub; [apply format_with_black_returns |].
  unfold ret. eauto.
Qed.

(** When the input path does not exist, the run returns after logging
    one error that names the path; no file is written. *)
Theorem missing_input_writes_nothing rt ipynb_path py_path ru ub w :
  files w !! ipynb_path = None ->
  fst (convert_ipynb_to_py rt ipynb_path py_path ru ub w) = Return tt
  /\ files (snd (convert_ipynb_to_py rt ipynb_path py_path ru ub w)) = files w
  /\ log (snd (convert_ipynb_to_py rt ipynb_path py_path ru ub w))
     = log w ++ [(ERROR, "File not found: " +:+ ipynb_path)].
Proof.
  intros Hf. rewrite (convert_input_missing _ _ _ _ _ _ Hf). auto.
Qed.

Lemma missing_input_writes_nothing_witness :
  files w_nb !! "none.ipynb" = None
  /\ log (snd (convert_ipynb_to_py (sample_rt black_ok) "none.ipynb" "out.py"
                 true true w_nb))
     = [(ERROR, "File not found: none.ipynb")].
Proof.
  assert (H : files w_nb !! "none.ipynb" = None) by (vm_compute; reflexivity).
  split; [exact H |].
  exact (proj2 (proj2 (missing_input_writes_nothing (sample_rt black_ok)
                         "none.ipynb" "out.py" true true w_nb H))).
Defined.

(** When the notebook cannot be read, the run returns after logging one
    error with the message of the exception; no file is written and the
    cells are not looked at. *)
Theorem unreadable_notebook_writes_nothing rt ipynb_path py_path ru ub w text e :
  files w !! ipynb_path = Some text ->
  nbformat_read rt text = Raise e ->
  isinstance_FileNotFoundError e = false ->
  fst (convert_ipynb_to_py rt ipynb_path py_path ru ub w) = Return tt
  /\ files (snd (convert_ipynb_to_py rt ipynb_path py_path ru ub w)) = files w
  /\ log (snd (convert_ipynb_to_py rt ipynb_path py_path ru ub w))
     = log w ++ [(ERROR, "An error occurred: " +:+ exn_str e)].
Proof.
  intros Hf Hnb He. rewrite (convert_unreadable _ _ _ _ _ _ _ _ Hf Hnb).
  unfold abort_msg. rewrite He. auto.
Qed.

Lemma unreadable_notebook_writes_nothing_witness :
  files w_bad !! "bad.ipynb" = Some "{"
  /\ nbformat_read (sample_rt black_ok) "{"
     = Raise (mk_exn OtherException "Notebook does not appear to be JSON")
  /\ log (snd (convert_ipynb_to_py (sample_rt black_ok) "bad.ipynb" "out.py"
                 true true w_bad))
     = [(ERROR, "An error occurred: Notebook does not appear to be JSON")].
Proof.
  assert (H : files w_bad !! "bad.ipynb" = Some "{")
    by (vm_compute; reflexivity).
  split; [exact H |]. split; [reflexivity |].
  exact (proj2 (proj2 (unreadable_notebook_writes_nothing (sample_rt black_ok)
                         "bad.ipynb" "out.py" true true w_bad "{" _ H eq_refl
                         eq_refl))).
Defined.

(** When the output cannot be opened for writing, the run still returns:
    the formatting stage has run, the lines for its changes are logged,
    then one error; the output is not written. If the exception is a
    [FileNotFoundError] (say the directory of the output is missing), the
    message names the input path. *)
Theorem unwritable_output_reported rt ipynb_path py_path ru ub text nb code
    w w1 e :
  files w !! ipynb_path = Some text ->
  nbformat_read rt text = Return nb ->
  assemble rt ru nb w = (Return code, w1) ->
  open_w_error rt py_path = Some e ->
  exists r w2,
    format_stage rt ub code w1 = (Return r, w2)
    /\ convert_ipynb_to_py rt ipynb_path py_path ru ub w
       = (Return tt,
          mk_world (files w2)
            (log w2 ++ change_lines (changes_header ub ipynb_path) (snd r)
             ++ [(ERROR,
                  if isinstance_FileNotFoundError e
                  then "File not found: " +:+ ipynb_path
                  else "An error occurred: " +:+ exn_str e)])).
Proof.
  intros Hf Hnb Ha Hw.
  destruct (format_stage_returns rt ub code w1) as (r & w2 & Hst).
  exists r, w2. split; [exact Hst |].
  rewrite (convert_after_assemble _ _ py_path _ _ _ _ _ _ _ _ _ Hf Hnb Ha Hst).
  rewrite Hw. reflexivity.
Qed.

Lemma unwritable_output_reported_witness :
  open_w_error sample_rt_no_dir "out/a.py" = Some err_no_dir
  /\ last (log (snd (convert_ipynb_to_py sample_rt_no_dir "nb.ipynb" "out/a.py"
                       false false w_nb)))
     = Some (ERROR, "File not found: nb.ipynb")
  /\ files (snd (convert_ipynb_to_py sample_rt_no_dir "nb.ipynb" "out/a.py"
                   false false w_nb)) !! "out/a.py" = None.
Proof.
  split; [reflexivity |].
  assert (Hf : files w_nb !! "nb.ipynb" = Some "nb")
    by (vm_compute; reflexivity).
  assert (Ha : assemble sample_rt_no_dir false sample_notebook w_nb
               = (Return (NL +:+ "# hello" +:+ NL +:+ NL +:+ src_unused
                          +:+ NL +:+ NL), w_nb))
    by (vm_compute; reflexivity).
  destruct (unwritable_output_reported sample_rt_no_dir "nb.ipynb" "out/a.py"
              false false "nb" sample_notebook _ w_nb w_nb err_no_dir
              Hf eq_refl Ha eq_refl) as (r & w2 & Hst & Hc).
  rewrite Hc. unfold format_stage, ret in Hst. injection Hst as <- <-.
  split; [vm_compute; reflexivity | vm_compute; reflexivity].
Defined.

(** A run with the external formatter that goes well: the output holds
    the text the tool left in the temporary file, the temporary file is
    gone, and the run logs the header of the changes, the one change
    [Formatted using black] and the success, whether or not the tool
    changed the text. *)
Theorem conversion_with_black_succeeds rt ipynb_path py_path ru text nb code
    w w1 tmp fs formatted :
  files w !! ipynb_path = Some text ->
  nbformat_read rt text = Return nb ->
  assemble rt ru nb w = (Return code, w1) ->
  mktemp rt (files w1) = Return tmp ->
  run_black rt tmp (<[tmp := code]> (files w1)) = Return fs ->
  fs !! tmp = Some formatted ->
  open_w_error rt py_path = None ->
  convert_ipynb_to_py rt ipynb_path py_path ru true w
  = (Return tt,
     mk_world (<[py_path := formatted]> (delete tmp fs))
       (log w1 ++ [black_header ipynb_path;
                   (INFO, "  - Formatted using black");
                   success_msg ipynb_path py_path])).
Proof.
  intros Hf Hnb Ha Ht Hb Hr Hw.
  pose proof (format_with_black_ran _ _ _ _ _ _ Ht Hb Hr) as Hst.
  rewrite (convert_after_assemble _ _ py_path _ true _ _ _ _ _ _ _
             Hf Hnb Ha Hst).
  rewrite Hw. reflexivity.
Qed.

Lemma conversion_with_black_succeeds_witness :
  open_w_error (sample_rt black_ok) "out.py" = None
  /\ convert_ipynb_to_py (sample_rt black_ok) "nb.ipynb" "out.py" false true
       w_nb
     = (Return tt,
        mk_world
          (<["out.py" := NL +:+ "# hello" +:+ NL +:+ NL +:+ src_unused
                         +:+ NL +:+ NL]> (files w_nb))
          [black_header "nb.ipynb"; (INFO, "  - Formatted using black");
           success_msg "nb.ipynb" "out.py"]).
Proof.
  split; [reflexivity |].
  assert (Hf : files w_nb !! "nb.ipynb" = Some "nb")
    by (vm_compute; reflexivity).
  assert (Ha : assemble (sample_rt black_ok) false sample_notebook w_nb
               = (Return (NL +:+ "# hello" +:+ NL +:+ NL +:+ src_unused
                          +:+ NL +:+ NL), w_nb))
    by (vm_compute; reflexivity).
  rewrite (conversion_with_black_succeeds (sample_rt black_ok) "nb.ipynb"
             "out.py" false "nb" sample_notebook _ w_nb w_nb sample_tmp _ _
             Hf eq_refl Ha eq_refl eq_refl (lookup_insert_eq _ _ _) eq_refl).
  vm_compute. reflexivity.
Defined.

(** Without the external formatter a run writes no file but the output:
    every other path holds after the run what it held before, however
    the run ends. *)
Theorem only_the_output_is_written_without_black rt ipynb_path py_path ru w p :
  p <> py_path ->
  files (snd (convert_ipynb_to_py rt ipynb_path py_path ru false w)) !! p
  = files w !! p.
Proof.
  intros Hp. destruct (files w !! ipynb_path) as [text |] eqn:Hf.
  - destruct (nbformat_read rt text) as [nb | e] eqn:Hnb.
    + destruct (cells_loop_world rt ru (cells nb) "" w) as (r & lg & Ha).
      destruct r as [code | e].
      * assert (Hst : format_stage rt false code (add_log w lg)
                      = (Return (format_code code), add_log w lg))
          by reflexivity.
        rewrite (convert_after_assemble _ _ py_path _ false _ _ _ _ _ _ _
                   Hf Hnb Ha Hst).
        destruct (open_w_error rt py_path); simpl; [reflexivity |].
        now rewrite lookup_insert_ne by congruence.
      * now rewrite (convert_aborts _ _ py_path ru false _ _ _ _ _ Hf Hnb Ha).
    + now rewrite (convert_unreadable _ _ _ _ _ _ _ _ Hf Hnb).
  - now rewrite (convert_input_missing _ _ _ _ _ _ Hf).
Qed.

Lemma only_the_output_is_written_without_black_witness :
  "nb.ipynb" <> "out.py"
  /\ files (snd (convert_ipynb_to_py (sample_rt black_ok) "nb.ipynb" "out.py"
                   true false w_nb)) !! "nb.ipynb"
     = files w_nb !! "nb.ipynb".
Proof.
  assert (H : "nb.ipynb" <> "out.py") by discriminate.
  split; [exact H |].
  exact (only_the_output_is_written_without_black (sample_rt black_ok)
           "nb.ipynb" "out.py" true w_nb "nb.ipynb" H).
Defined.

(** * Further properties of the external formatter stage *)

(** When the tool has run and the temporary file is there, the stage
    returns the text of the file with the one change [Formatted using
    black], deletes the temporary file, leaves the other files as the tool
    left them and logs nothing. *)
Theorem black_success_cleans_up rt src w tmp fs formatted :
  mktemp rt (files w) = Return tmp ->
  run_black rt tmp (<[tmp := src]> (files w)) = Return fs ->
  fs !! tmp = Some formatted ->
  fst (format_with_black rt src w)
  = Return (formatted, ["Formatted using black"])
  /\ files (snd (format_with_black rt src w)) !! tmp = None
  /\ (forall p, p <> tmp ->
        files (snd (format_with_black rt src w)) !! p = fs !! p)
  /\ log (snd (format_with_black rt src w)) = log w.
Proof.
  intros Ht Hb Hr. rewrite (format_with_black_ran _ _ _ _ _ _ Ht Hb Hr).
  simpl. split; [reflexivity |]. split; [apply lookup_delete_eq |].
  split; [| reflexivity]. intros p Hp. now apply lookup_delete_ne.
Qed.

Lemma black_success_cleans_up_witness :
  mktemp (sample_rt black_ok) (files w0) = Return sample_tmp
  /\ fst (format_with_black (sample_rt black_ok) src_used w0)
     = Return (src_used, ["Formatted using black"])
  /\ files (snd (format_with_black (sample_rt black_ok) src_used w0))
       !! sample_tmp = None.
Proof.
  split; [reflexivity |].
  destruct (black_success_cleans_up (sample_rt black_ok) src_used w0
              sample_tmp (<[sample_tmp := src_used]> (files w0)) src_used
              eq_refl eq_refl (lookup_insert_eq _ _ _)) as (H1 & H2 & _).
  split; [exact H1 | exact H2].
Defined.

(** When the tool has run but the temporary file is no longer there, the
    reading back raises [FileNotFoundError], which the first handler
    takes: the stage logs that black was not found, although it ran, and
    returns what the minimal formatter returns. *)
Theorem vanished_temp_file_reported_as_missing_black rt src w tmp fs :
  mktemp rt (files w) = Return tmp ->
  run_black rt tmp (<[tmp := src]> (files w)) = Return fs ->
  fs !! tmp = None ->
  format_with_black rt src w
  = (Return (format_code src), mk_world fs (log w ++ [black_not_found])).
Proof.
  intros Ht Hb Hr. run_black_stage. rewrite Ht. simpl. rewrite Hb. simpl.
  rewrite Hr. reflexivity.
Qed.

Lemma vanished_temp_file_reported_as_missing_black_witness :
  run_black (sample_rt black_removes) sample_tmp
    (<[sample_tmp := src_nested]> (files w0))
  = Return (delete sample_tmp (<[sample_tmp := src_nested]> (files w0)))
  /\ fst (format_with_black (sample_rt black_removes) src_nested w0)
     = Return (format_code src_nested).
Proof.
  split; [reflexivity |].
  rewrite (vanished_temp_file_reported_as_missing_black
             (sample_rt black_removes) src_nested w0 sample_tmp _
             eq_refl eq_refl (lookup_delete_eq _ _)).
  reflexivity.
Defined.

(** When the temporary file cannot be created, the stage creates no file
    and returns through the handlers: what the minimal formatter returns
    for a [FileNotFoundError], the text it was given with the message
    otherwise; one warning is logged. *)
Theorem temp_file_creation_failure rt src w e :
  mktemp rt (files w) = Raise e ->
  fst (format_with_black rt src w)
  = Return (if isinstance_FileNotFoundError e then format_code src
            else if isinstance_CalledProcessError e
                 then (src, ["black formatting failed: " +:+ exn_str e])
                 else (src, ["black formatting error: " +:+ exn_str e]))
  /\ files (snd (format_with_black rt src w)) = files w
  /\ length (log (snd (format_with_black rt src w))) = S (length (log w)).
Proof.
  intros Ht. run_black_stage. rewrite Ht.
  destruct (isinstance_FileNotFoundError e);
    [| destruct (isinstance_CalledProcessError e)]; simpl;
    rewrite length_app; simpl; repeat split; lia.
Qed.

Lemma temp_file_creation_failure_witness :
  mktemp sample_rt_no_tmp (files w0) = Raise err_no_tmp
  /\ fst (format_with_black sample_rt_no_tmp src_nested w0)
     = Return (format_code src_nested)
  /\ files (snd (format_with_black sample_rt_no_tmp src_nested w0)) = files w0.
Proof.
  split; [reflexivity |].
  destruct (temp_file_creation_failure sample_rt_no_tmp src_nested w0
              err_no_tmp eq_refl) as (H1 & H2 & _).
  split; [exact H1 | exact H2].
Defined.

(** * Further properties of the minimal formatter *)

Lemma fmt_ref_no_defs lines :
  Forall (fun l => is_def_line l = false) lines ->
  forall p i, fmt_ref p lines = lines /\ changes_ref p i lines = [].
Proof.
  induction 1 as [|l lines Hl _ IH]; intros p i; simpl; [auto |].
  rewrite Hl. destruct (IH (strip_is_empty l) (S i)) as [-> ->]. auto.
Qed.

(** A text without a line that begins with [def ] or [class ] (an
    indented definition does not count) comes back with its lines as they
    are, joined with newlines, and no change. *)
Theorem format_code_without_definitions source_code :
  Forall (fun l => is_def_line l = false) (splitlines source_code) ->
  format_code source_code = (join NL (splitlines source_code), []).
Proof.
  intros H. unfold format_code.
  destruct (format_lines_ref (splitlines source_code)) as [-> ->].
  now destruct (fmt_ref_no_defs _ H true 0) as [-> ->].
Qed.

Lemma format_code_without_definitions_witness :
  Forall (fun l => is_def_line l = false)
    (splitlines ("x = 1" +:+ NL +:+ "    def f(self):" +:+ NL))
  /\ format_code ("x = 1" +:+ NL +:+ "    def f(self):" +:+ NL)
     = ("x = 1" +:+ NL +:+ "    def f(self):", []).
Proof.
  assert (H : Forall (fun l => is_def_line l = false)
                (splitlines ("x = 1" +:+ NL +:+ "    def f(self):" +:+ NL)))
    by (repeat constructor).
  split; [exact H |].
  exact (format_code_without_definitions _ H).
Defined.

Lemma last_two {A} (l : list A) a b : last (l ++ [a; b]) = Some b.
Proof. change [a; b] with ([a] ++ [b]). now rewrite app_assoc, last_snoc. Qed.

(** One turn of the loop keeps the flag in step with the last line. *)
Lemma format_fold_flag lines : forall i st,
  prev_line_empty st
  = match last (formatted_lines st) with
    | Some l => strip_is_empty l
    | None => true
    end ->
  let st' := fold_left format_step (combine (seq i (length lines)) lines) st in
  prev_line_empty st'
  = match last (formatted_lines st') with
    | Some l => strip_is_empty l
    | None => true
    end.
Proof.
  induction lines as [|line rest IH]; intros i st Hinv; simpl; [exact Hinv |].
  apply IH. destruct (is_def_line line); simpl.
  - now rewrite last_two.
  - now rewrite last_snoc.
Qed.

(** The flag of the loop follows the last line emitted: it is set
    exactly when nothing was emitted yet or that line is blank once
    stripped. So, when it is not set, a line has been emitted, and the
    second test of the condition at line 145 never decides. *)
Theorem prev_line_empty_tracks_last_line lines :
  prev_line_empty (format_lines lines)
  = match last (formatted_lines (format_lines lines)) with
    | Some l => strip_is_empty l
    | None => true
    end
  /\ (prev_line_empty (format_lines lines) = false ->
      formatted_lines (format_lines lines) <> []).
Proof.
  assert (H : prev_line_empty (format_lines lines)
              = match last (formatted_lines (format_lines lines)) with
                | Some l => strip_is_empty l
                | None => true
                end)
    by (apply (format_fold_flag lines 0 (mk_fmt [] [] true)); reflexivity).
  split; [exact H |]. intros Hp Hnil. rewrite Hp, Hnil in H. discriminate.
Qed.

Lemma prev_line_empty_tracks_last_line_witness :
  prev_line_empty (format_lines ["x = 1"]) = false
  /\ formatted_lines (format_lines ["x = 1"]) <> [].
Proof.
  assert (H : prev_line_empty (format_lines ["x = 1"]) = false)
    by reflexivity.
  split; [exact H |].
  exact (proj2 (prev_line_empty_tracks_last_line ["x = 1"]) H).
Defined.

Lemma well_spaced_head p q l out :
  is_def_line l = false ->
  well_spaced p (l :: out) -> well_spaced q (l :: out).
Proof. intros Hl [_ H]. split; [congruence | exact H]. Qed.

Lemma well_spaced_no_changes out : forall p i,
  well_spaced p out -> changes_ref p i out = [].
Proof.
  induction out as [|l out IH]; intros p i Hw; [reflexivity |].
  destruct Hw as [Hl Hw]. simpl.
  destruct (is_def_line l) eqn:Hd.
  - destruct (Hl eq_refl) as [-> Hh]. simpl. apply IH.
    destruct out as [|l' out]; [discriminate |].
    simpl in Hh. injection Hh as ->.
    exact (well_spaced_head _ true "" out eq_refl Hw).
  - now apply IH.
Qed.

Lemma fmt_ref_defs lines : forall p,
  List.filter is_def_line (fmt_ref p lines) = List.filter is_def_line lines.
Proof.
  induction lines as [|line rest IH]; intros p; simpl; [reflexivity |].
  destruct (is_def_line line) eqn:Hd.
  - destruct p; simpl; rewrite Hd;
      change (is_def_line "") with false; cbv iota; now rewrite IH.
  - simpl. rewrite Hd. apply IH.
Qed.

(** Running the loop again on the lines it produced records no change,
    yet adds one more empty line after every definition line: the output
    grows by the number of definition lines at each run, and its lines
    that are not empty stay those of the input. *)
Theorem second_formatting_adds_blank_lines lines :
  let out := formatted_lines (format_lines lines) in
  changes (format_lines out) = []
  /\ length (formatted_lines (format_lines out))
     = length out + length (List.filter is_def_line lines)
  /\ List.filter not_empty_line (formatted_lines (format_lines out))
     = List.filter not_empty_line lines.
Proof.
  intros out. subst out.
  destruct (format_lines_ref lines) as [-> _].
  destruct (format_lines_ref (fmt_ref true lines)) as [-> ->].
  pose proof (well_spaced_no_changes _ true 0 (fmt_ref_well_spaced lines true))
    as Hc.
  split; [exact Hc |]. split.
  - rewrite (fmt_ref_length (fmt_ref true lines) true 0), Hc, fmt_ref_defs.
    simpl. lia.
  - now rewrite !fmt_ref_filter.
Qed.
